(** * vertexai_openai_auth_proxy: the credential manager and the request forwarder

    A shallow embedding of the Go program (package main: [Server],
    [refreshCredentials], [setupRoutes], the handlers and [main]) and the
    properties of its credential lifecycle, its routing table and its
    chat-completion handler.

    Conventions.
    - A Go [error] is its message, a [string].
    - A [time.Time] is an instant in nanoseconds, a [Z]; a [time.Duration] is
      an int64 count of nanoseconds, with the saturation of [Time.Sub]
      written out.
    - The pointer [s.credential] is an [option]: [None] is nil.
    - The identity provider, the upstream endpoint and the JSON binding are
      the environment: their answers are inputs of the functions below.
    - gin's router is modelled by how it matches the patterns registered
      here: a named parameter takes one path segment.
    - [main] runs to [router.Run] before the goroutine it started takes its
      first step; the goroutine touches neither the router nor the port.
    - The steps of the process are atomic: a refresh step is one whole call
      of [refreshCredentials], a request one whole run of its handler. The
      program assigns [s.credential] in one goroutine and reads it in others
      with no synchronisation between them; what Go's memory model lets
      such a read see is outside this development.

    The program exists in two versions that share [refreshCredentials],
    [handleChatCompletions] and [main]; the one modelled is the fuller one,
    which also registers the model catalog and the CORS middleware. *)

From Stdlib Require Import ZArith Lia Ascii.
From stdpp Require Import base tactics option list strings gmap.

Local Open Scope string_scope.
Local Open Scope nat_scope.
Local Open Scope list_scope.
#[local] Set Warnings "-register-all".

(** ** Results of fallible calls *)

Definition error := string.

Inductive result (A : Type) : Type :=
| Ok (a : A)
| Err (e : error).
Arguments Ok {A} a.
Arguments Err {A} e.

(** ** Package time *)

Module GoTime.

Definition Instant := Z.
Definition Duration := Z.

Definition Nanosecond : Duration := 1%Z.
Definition Second : Duration := (1000000000 * Nanosecond)%Z.
Definition Minute : Duration := (60 * Second)%Z.

Definition minDuration : Duration := (- 2 ^ 63)%Z.
Definition maxDuration : Duration := (2 ^ 63 - 1)%Z.

(** [t.Add(d)] *)
Definition Add (t : Instant) (d : Duration) : Instant := (t + d)%Z.

(** [t.Sub(u)]: the difference, or the largest (smallest) Duration when the
    difference does not fit an int64. *)
Definition Sub (t u : Instant) : Duration :=
  Z.max minDuration (Z.min maxDuration (t - u)).

(** [time.Until(t)] with the clock reading [now]. *)
Definition Until (now t : Instant) : Duration := Sub t now.

(** The instant at which [time.Sleep(d)], called at [now], lets its
    goroutine run again: a negative or zero duration returns at once. *)
Definition Sleep (now : Instant) (d : Duration) : Instant :=
  (now + Z.max 0 d)%Z.

End GoTime.

(** ** Packages oauth2 and google, as far as the program uses them *)

Record Token : Type := mkToken {
  AccessToken : string;
  Expiry : GoTime.Instant
}.

(** An [oauth2.TokenSource] is an interface with the one method [Token()];
    it is modelled by the answer that method gives. *)
Record TokenSource : Type := mkTokenSource {
  TokenSource_Token : result Token
}.

Record Credentials : Type := mkCredentials {
  Credentials_ProjectID : string;
  Credentials_TokenSource : TokenSource;
  Credentials_JSON : string
}.

(** ** The server *)

Record Config : Type := mkConfig {
  ProjectID : string;
  Location : string;
  EndpointID : string
}.

Inductive HandlerName : Type :=
| HChatCompletions
| HOptions
| HListModels
| HRetrieveModel.

Record Route : Type := mkRoute {
  route_method : string;
  route_pattern : string;
  route_handler : HandlerName
}.

(** [gin.Engine]: the registered routes, in registration order, and whether
    the CORS middleware was installed with [Use]. *)
Record Engine : Type := mkEngine {
  routes : list Route;
  cors_installed : bool
}.

Definition gin_Default : Engine := {| routes := []; cors_installed := false |}.

Record Server : Type := mkServer {
  config : Config;
  credential : option Credentials;
  router : Engine
}.

Definition NewServer (config : Config) : Server :=
  {| config := config; credential := None; router := gin_Default |}.

Definition add_route (m p : string) (h : HandlerName) (e : Engine) : Engine :=
  {| routes := routes e ++ [mkRoute m p h]; cors_installed := cors_installed e |}.

Definition setupRoutes (s : Server) : Server :=
  let r := {| routes := routes (router s); cors_installed := true |} in
  let r := add_route "POST" "/v1/chat/completions" HChatCompletions r in
  let r := add_route "OPTIONS" "/v1/chat/completions" HOptions r in
  let r := add_route "GET" "/v1/models" HListModels r in
  let r := add_route "GET" "/v1/models/:model" HRetrieveModel r in
  {| config := config s; credential := credential s; router := r |}.

(** ** The credential manager *)

(** A goroutine started by [refreshCredentials]: its closure holds the token
    whose expiry schedules it. It is first about to evaluate
    [time.Until(token.Expiry.Add(-5 * time.Minute))], then inside
    [time.Sleep], then inside the nested call of [refreshCredentials]. *)
Inductive Goroutine : Type :=
| GoSpawned (token : Token)
| GoSleeping (deadline wake : GoTime.Instant)
| GoRefreshing.

Definition safety_margin : GoTime.Duration := (5 * GoTime.Minute)%Z.

(** [token.Expiry.Add(-5 * time.Minute)] *)
Definition refresh_deadline (token : Token) : GoTime.Instant :=
  GoTime.Add (Expiry token) (-5 * GoTime.Minute)%Z.

(** What one call of [refreshCredentials] leaves behind: the server, the
    goroutines it started and the error it returns. *)
Record RefreshOutcome : Type := mkRefreshOutcome {
  ro_server : Server;
  ro_spawned : list Goroutine;
  ro_err : option error
}.

(** [reply] is what [google.FindDefaultCredentials] answers to this call. *)
Definition refreshCredentials (s : Server) (reply : result Credentials)
  : RefreshOutcome :=
  match reply with
  | Err e => mkRefreshOutcome s [] (Some ("failed to get credentials: " +:+ e))
  | Ok creds =>
      match TokenSource_Token (Credentials_TokenSource creds) with
      | Err e => mkRefreshOutcome s [] (Some ("failed to get token: " +:+ e))
      | Ok token =>
          mkRefreshOutcome
            {| config := config s; credential := Some creds; router := router s |}
            [GoSpawned token]
            None
      end
  end.

(** ** The process *)

Record Process : Type := mkProcess {
  server : Server;
  now : GoTime.Instant;
  goroutines : list Goroutine;
  logs : list string;
  listening : option string;
  exited : option Z
}.

(** [main]. [project] is the value of GOOGLE_CLOUD_PROJECT, [t0] the clock at
    start, [reply] the identity provider's first answer and [run_err] the
    error of [router.Run(":8080")], if binding the port fails. [log.Fatalf]
    writes its line and exits with status 1. *)
Definition main (project : string) (t0 : GoTime.Instant)
    (reply : result Credentials) (run_err : option error) : Process :=
  let config := {| ProjectID := project; Location := "us-central1"; EndpointID := "openapi" |} in
  let server := NewServer config in
  let o := refreshCredentials server reply in
  match ro_err o with
  | Some err =>
      mkProcess (ro_server o) t0 [] ["Failed to initialize credentials: " +:+ err]
        None (Some 1%Z)
  | None =>
      let server := setupRoutes (ro_server o) in
      match run_err with
      | Some err =>
          mkProcess server t0 [] ["Failed to start server: " +:+ err] None (Some 1%Z)
      | None =>
          mkProcess server t0 (ro_spawned o) [] (Some ":8080") None
      end
  end.

(** What the scheduler, the clock and the identity provider can do to a
    running process. *)
Inductive Event : Type :=
| Tick (t : GoTime.Instant)
| Start (i : nat)
| Wake (i : nat)
| Refresh (i : nat) (reply : result Credentials).

Definition set_goroutines (p : Process) (gs : list Goroutine) : Process :=
  mkProcess (server p) (now p) gs (logs p) (listening p) (exited p).

(** The goroutine's body after the nested [refreshCredentials] returned:
    the goroutine ends, and an error is logged and dropped. *)
Definition finish_refresh (p : Process) (i : nat) (o : RefreshOutcome) : Process :=
  mkProcess (ro_server o) (now p)
    (delete i (goroutines p) ++ ro_spawned o)
    (match ro_err o with
     | Some err => logs p ++ ["Failed to refresh credentials: " +:+ err]
     | None => logs p
     end)
    (listening p) (exited p).

Definition step (ev : Event) (p : Process) : option Process :=
  match exited p with
  | Some _ => None
  | None =>
      match ev with
      | Tick t =>
          if decide (now p ≤ t)%Z
          then Some (mkProcess (server p) t (goroutines p) (logs p) (listening p) (exited p))
          else None
      | Start i =>
          match goroutines p !! i with
          | Some (GoSpawned token) =>
              let deadline := refresh_deadline token in
              let wake := GoTime.Sleep (now p) (GoTime.Until (now p) deadline) in
              Some (set_goroutines p (<[i := GoSleeping deadline wake]> (goroutines p)))
          | _ => None
          end
      | Wake i =>
          match goroutines p !! i with
          | Some (GoSleeping deadline wake) =>
              if decide (wake ≤ now p)%Z
              then Some (set_goroutines p (<[i := GoRefreshing]> (goroutines p)))
              else None
          | _ => None
          end
      | Refresh i reply =>
          match goroutines p !! i with
          | Some GoRefreshing =>
              Some (finish_refresh p i (refreshCredentials (server p) reply))
          | _ => None
          end
      end
  end.

Fixpoint exec (evs : list Event) (p : Process) : option Process :=
  match evs with
  | [] => Some p
  | ev :: evs' =>
      match step ev p with
      | Some p' => exec evs' p'
      | None => None
      end
  end.

(** A state of a process whose [main] got its credentials and bound its
    port. *)
Definition reachable (p : Process) : Prop :=
  ∃ project t0 reply evs,
    exited (main project t0 reply None) = None ∧
    exec evs (main project t0 reply None) = Some p.

(** [currentToken()]: what a request handler reads. *)
Definition currentToken (p : Process) : option Credentials :=
  credential (server p).

Definition is_armed (g : Goroutine) : bool :=
  match g with
  | GoSpawned _ | GoSleeping _ _ => true
  | GoRefreshing => false
  end.

(** The refresh timers that are armed: goroutines that have not yet come
    back from their [time.Sleep]. *)
Definition armed_timers (p : Process) : list Goroutine :=
  filter (λ g, is_armed g = true) (goroutines p).

(** The invariant of a running process. *)
Definition running (p : Process) : Prop :=
  exited p = None ∧
  is_Some (credential (server p)) ∧
  length (goroutines p) ≤ 1 ∧
  listening p = Some ":8080" ∧
  router (server p) = router (setupRoutes (NewServer (config (server p)))).

(** ** The request forwarder *)

Inductive JSON : Type :=
| JNull
| JStr (s : string)
| JNum (n : Z)
| JArr (items : list JSON)
| JObj (fields : list (string * JSON)).

(** [obj[key]] of a JSON object. *)
Fixpoint json_field (key : string) (fields : list (string * JSON)) : option JSON :=
  match fields with
  | [] => None
  | (k, v) :: rest => if String.eqb k key then Some v else json_field key rest
  end.

Definition json_get (key : string) (j : JSON) : option JSON :=
  match j with
  | JObj fields => json_field key fields
  | _ => None
  end.

Inductive Body : Type :=
| BodyEmpty
| BodyJSON (j : JSON)
| BodyText (s : string)
| BodyRedirect (location : string).

Record Response : Type := mkResponse {
  status : Z;
  body : Body
}.

Definition StatusOK : Z := 200.
Definition StatusMovedPermanently : Z := 301.
Definition StatusTemporaryRedirect : Z := 307.
Definition StatusBadRequest : Z := 400.
Definition StatusNotFound : Z := 404.
Definition StatusInternalServerError : Z := 500.

(** *** The model catalog *)

Record ModelObject : Type := mkModelObject {
  ID : string;
  Object : string;
  Created : Z;
  OwnedBy : string
}.

Record ModelList : Type := mkModelList {
  ModelList_Object : string;
  ModelList_Data : list ModelObject
}.

(** The encodings [c.JSON] gives the two structs, by their json tags. *)
Definition ModelObject_json (m : ModelObject) : JSON :=
  JObj [("id", JStr (ID m)); ("object", JStr (Object m));
        ("created", JNum (Created m)); ("owned_by", JStr (OwnedBy m))].

Definition ModelList_json (l : ModelList) : JSON :=
  JObj [("object", JStr (ModelList_Object l));
        ("data", JArr (ModelObject_json <$> ModelList_Data l))].

Definition gemini : string := "google/gemini-2.0-flash-001".

Definition AvailableModels : gmap string ModelObject :=
  {[ gemini := {| ID := gemini; Object := "model";
                  Created := 1706745600; OwnedBy := "google" |} ]}.

(** The catalog's one entry. *)
Definition gemini_entry : ModelObject :=
  {| ID := "google/gemini-2.0-flash-001"; Object := "model";
     Created := 1706745600; OwnedBy := "google" |}.

(** *** The go-openai client and gin's JSON binding *)

(** [openai.ChatCompletionRequest]: the field the handler assigns, and the
    others, whose type [F] the library declares. *)
Record ChatCompletionRequest (F : Type) : Type := mkChatCompletionRequest {
  Model : string;
  Fields : F
}.
Arguments mkChatCompletionRequest {F} Model Fields.
Arguments Model {F} _.
Arguments Fields {F} _.

(** [openai.ClientConfig], with the token source that
    [oauth2.NewClient] wraps into the HTTP client. *)
Record ClientConfig : Type := mkClientConfig {
  BaseURL : string;
  HTTPClient : TokenSource
}.

(** The collaborators of the chat handler: [c.BindJSON] on the request body,
    [client.CreateChatCompletion] (the upstream's answer, of type [R]) and the
    JSON encoding of that answer. *)
Class OpenAI (F R : Type) : Type := {
  BindJSON : string → result (ChatCompletionRequest F);
  CreateChatCompletion : ClientConfig → ChatCompletionRequest F → result R;
  Response_json : R → JSON
}.

(** A [gin.Context] after its handler ran: the responses written with
    [c.JSON] or [c.Status], the calls made to the upstream, and whether the
    handler panicked. *)
Record Ctx (F : Type) : Type := mkCtx {
  written : list Response;
  upstream_calls : list (ClientConfig * ChatCompletionRequest F);
  panicked : bool
}.
Arguments mkCtx {F} written upstream_calls panicked.
Arguments written {F} _.
Arguments upstream_calls {F} _.
Arguments panicked {F} _.

Record Request : Type := mkRequest {
  req_method : string;
  req_path : string;
  req_body : string
}.

(** *** gin's router *)

(** [strings.Split(s, "/")] *)
Fixpoint split_path (s : string) : list string :=
  match s with
  | EmptyString => [""]
  | String c s' =>
      if Ascii.eqb c "/"%char then "" :: split_path s'
      else match split_path s' with
           | seg :: rest => String c seg :: rest
           | [] => [String c ""]
           end
  end.

(** A pattern against a path, segment by segment: a segment [:name] of the
    pattern takes one whole, non-empty segment of the path (it never spans a
    slash); any other segment must be equal. *)
Fixpoint match_segments (pat path : list string) (params : list (string * string))
  : option (list (string * string)) :=
  match pat, path with
  | [], [] => Some params
  | p :: pat', x :: path' =>
      match p with
      | String ":" name =>
          if String.eqb x "" then None
          else match_segments pat' path' (params ++ [(name, x)])
      | _ => if String.eqb p x then match_segments pat' path' params else None
      end
  | _, _ => None
  end.

Definition match_route (m p : string) (r : Route) : option (list (string * string)) :=
  if String.eqb (route_method r) m
  then match_segments (split_path (route_pattern r)) (split_path p) []
  else None.

Fixpoint find_route (m p : string) (rs : list Route)
  : option (HandlerName * list (string * string)) :=
  match rs with
  | [] => None
  | r :: rs' =>
      match match_route m p r with
      | Some params => Some (route_handler r, params)
      | None => find_route m p rs'
      end
  end.

(** The path without its last character when that is a slash. *)
Fixpoint strip_trailing_slash (p : string) : option string :=
  match p with
  | EmptyString => None
  | String c EmptyString => if Ascii.eqb c "/"%char then Some "" else None
  | String c p' => String c <$> strip_trailing_slash p'
  end.

Inductive Lookup : Type :=
| Found (h : HandlerName) (params : list (string * string))
| TrailingSlashRedirect (location : string)
| NoRoute.

(** [engine.handleHTTPRequest] with gin's defaults: a path with no route is
    redirected when it differs from a registered one by its trailing slash,
    and is a 404 otherwise. *)
Definition lookup_route (e : Engine) (m p : string) : Lookup :=
  match find_route m p (routes e) with
  | Some (h, params) => Found h params
  | None =>
      let alt := match strip_trailing_slash p with
                 | Some p' => p'
                 | None => p +:+ "/"
                 end in
      if String.eqb p "/" then NoRoute
      else match find_route m alt (routes e) with
           | Some _ => TrailingSlashRedirect alt
           | None => NoRoute
           end
  end.

Definition default404Body : string := "404 page not found".

(** [c.Param(key)] *)
Fixpoint Param (key : string) (params : list (string * string)) : string :=
  match params with
  | [] => ""
  | (k, v) :: rest => if String.eqb k key then v else Param key rest
  end.

Section Handlers.
Context {F R : Type} {openai : OpenAI F R}.

Definition c_JSON (code : Z) (obj : JSON) (c : Ctx F) : Ctx F :=
  mkCtx (written c ++ [mkResponse code (BodyJSON obj)]) (upstream_calls c) (panicked c).

Definition c_Status (code : Z) (c : Ctx F) : Ctx F :=
  mkCtx (written c ++ [mkResponse code BodyEmpty]) (upstream_calls c) (panicked c).

Definition call_upstream (cfg : ClientConfig) (req : ChatCompletionRequest F)
    (c : Ctx F) : Ctx F :=
  mkCtx (written c) (upstream_calls c ++ [(cfg, req)]) (panicked c).

Definition panic (c : Ctx F) : Ctx F :=
  mkCtx (written c) (upstream_calls c) true.

Definition new_context : Ctx F := mkCtx [] [] false.

Definition handleListModels (s : Server) (c : Ctx F) : Ctx F :=
  let modelList :=
    {| ModelList_Object := "list";
       ModelList_Data := (map_to_list AvailableModels).*2 |} in
  c_JSON StatusOK (ModelList_json modelList) c.

Definition handleRetrieveModel (s : Server) (params : list (string * string))
    (c : Ctx F) : Ctx F :=
  let modelID := Param "model" params in
  match AvailableModels !! modelID with
  | None =>
      c_JSON StatusNotFound
        (JObj [("error",
                JObj [("message", JStr ("The model '" +:+ modelID +:+ "' does not exist"));
                      ("type", JStr "invalid_request_error");
                      ("param", JNull);
                      ("code", JStr "model_not_found")])])
        c
  | Some model => c_JSON StatusOK (ModelObject_json model) c
  end.

Definition handleOptions (s : Server) (c : Ctx F) : Ctx F :=
  c_Status StatusOK c.

Definition upstream_url (cfg : Config) : string :=
  "https://" +:+ Location cfg +:+ "-aiplatform.googleapis.com/v1beta1/projects/"
    +:+ ProjectID cfg +:+ "/locations/" +:+ Location cfg
    +:+ "/endpoints/" +:+ EndpointID cfg.

(** [s.credential.TokenSource] on a nil [s.credential] panics. *)
Definition handleChatCompletions (s : Server) (body : string) (c : Ctx F) : Ctx F :=
  match BindJSON body with
  | Err err => c_JSON StatusBadRequest (JObj [("error", JStr err)]) c
  | Ok request =>
      match credential s with
      | None => panic c
      | Some cred =>
          let clientConfig :=
            {| BaseURL := upstream_url (config s);
               HTTPClient := Credentials_TokenSource cred |} in
          let request := mkChatCompletionRequest gemini (Fields request) in
          let c := call_upstream clientConfig request c in
          match CreateChatCompletion clientConfig request with
          | Err err => c_JSON StatusInternalServerError (JObj [("error", JStr err)]) c
          | Ok resp => c_JSON StatusOK (Response_json resp) c
          end
      end
  end.

Definition run_handler (h : HandlerName) (s : Server)
    (params : list (string * string)) (req : Request) (c : Ctx F) : Ctx F :=
  match h with
  | HChatCompletions => handleChatCompletions s (req_body req) c
  | HOptions => handleOptions s c
  | HListModels => handleListModels s c
  | HRetrieveModel => handleRetrieveModel s params c
  end.

(** One request through the engine: the context its handler leaves, the
    redirect, or gin's plain-text 404. The requests carry no Origin header,
    so the CORS middleware passes them on untouched. *)
Definition ServeHTTP (s : Server) (req : Request) : Ctx F :=
  match lookup_route (router s) (req_method req) (req_path req) with
  | Found h params => run_handler h s params req new_context
  | TrailingSlashRedirect location =>
      mkCtx [mkResponse
               (if String.eqb (req_method req) "GET"
                then StatusMovedPermanently else StatusTemporaryRedirect)
               (BodyRedirect location)] [] false
  | NoRoute => mkCtx [mkResponse StatusNotFound (BodyText default404Body)] [] false
  end.

(** The request the handler sends upstream for a parsed [request]. *)
Definition forwarded (request : ChatCompletionRequest F) : ChatCompletionRequest F :=
  mkChatCompletionRequest "google/gemini-2.0-flash-001" (Fields request).

Definition client_of (s : Server) (cred : Credentials) : ClientConfig :=
  {| BaseURL := upstream_url (config s);
     HTTPClient := Credentials_TokenSource cred |}.

End Handlers.

(** Runs [match_segments] on a known pattern and an unknown path. *)
Ltac match_steps :=
  cbn [match_segments];
  repeat match goal with
    | |- (match ?l with [] => _ | _ :: _ => _ end) = Some _ → _ =>
        destruct l as [|? ?]; try discriminate
    | |- (if String.eqb ?a ?b then _ else _) = Some _ → _ =>
        case (String.eqb_spec a b); [intros ?|intros ?]; try discriminate
    end.

(** ** A sample run

    A token that expires one hour after the start; the goroutine that [main]
    leaves behind sleeps until five minutes before that and then asks the
    identity provider again. *)

Definition sample_token : Token := mkToken "ya29.first" 3600000000000%Z.

Definition sample_creds : Credentials :=
  mkCredentials "demo-project" (mkTokenSource (Ok sample_token)) "{}".

Definition sample_start : Process := main "demo-project" 0%Z (Ok sample_creds) None.

Definition sample_due : list Event := [Start 0; Tick 3300000000000%Z; Wake 0].

(** The sample process at the moment its goroutine is inside the nested
    [refreshCredentials]. *)
Definition sample_refreshing : Process :=
  mkProcess (server sample_start) 3300000000000%Z [GoRefreshing] [] (Some ":8080") None.

(** The same process after the provider answered with an error. *)
Definition sample_degraded : Process :=
  mkProcess (server sample_start) 3300000000000%Z []
    ["Failed to refresh credentials: failed to get credentials: provider unreachable"]
    (Some ":8080") None.

(** The reading of "a failed refresh is retried": after the failed attempt
    the previous credential is still installed and some goroutine is left to
    make the next attempt. *)
Definition retries_after_failed_refresh : Prop :=
  ∀ p i reply e q,
    reachable p →
    step (Refresh i reply) p = Some q →
    ro_err (refreshCredentials (server p) reply) = Some e →
    currentToken q = currentToken p ∧ goroutines q ≠ [].

(** The credentials the sample provider hands out at the second attempt. *)
Definition sample_renewed_token : Token := mkToken "ya29.second" 7200000000000%Z.

Definition sample_renewed_creds : Credentials :=
  mkCredentials "demo-project" (mkTokenSource (Ok sample_renewed_token)) "{}".

(** Whether a string has a slash in it. *)
Fixpoint has_slash (s : string) : bool :=
  match s with
  | EmptyString => false
  | String c s' => Ascii.eqb c "/"%char || has_slash s'
  end.

(** A sample upstream for the chat handler: the other fields of a request
    are one number, the upstream's answer is a string. An empty body does not
    parse; the body "overloaded" parses to a request the upstream refuses. *)
Definition sample_openai : OpenAI nat string :=
  {| BindJSON := λ body,
       if String.eqb body "" then Err "EOF"
       else if String.eqb body "overloaded" then Ok (mkChatCompletionRequest "gpt-4" 0)
       else Ok (mkChatCompletionRequest "gpt-4" 1);
     CreateChatCompletion := λ cfg req,
       match Fields req with
       | 0 => Err "status code: 503"
       | S _ => Ok ("answer of " +:+ Model req)
       end;
     Response_json := JStr |}.

(** The segments of a path put together again, a slash between each two:
    [strings.Join(segs, "/")]. *)
Fixpoint join_path (segs : list string) : string :=
  match segs with
  | [] => ""
  | [seg] => seg
  | seg :: rest => seg +:+ "/" +:+ join_path rest
  end.

(** ** tokenTransport

    An [http.RoundTripper] that asks its [token] function for a token and
    sends the request on through [http.DefaultTransport] with the token in
    the Authorization header. The [token] function is modelled by its
    answer, a token or an error; [http.DefaultTransport] is a parameter. The
    request is a pointer: [RoundTrip] writes the header into the caller's
    request, which is why the outcome carries the request as it is
    afterwards. *)

Module Transport.

Record HTTPRequest : Type := mkHTTPRequest {
  Method : string;
  URL : string;
  Header : gmap string (list string);
  RequestBody : string
}.

(** [h.Set(key, value)], for a key in canonical form: the key's values
    become the one value. *)
Definition Header_Set (key value : string) (h : gmap string (list string))
  : gmap string (list string) :=
  <[key := [value]]> h.

(** [h.Get(key)]: the first value of the key, or the empty string. *)
Definition Header_Get (key : string) (h : gmap string (list string)) : string :=
  match h !! key with
  | Some (v :: _) => v
  | _ => ""
  end.

Record tokenTransport : Type := mkTokenTransport {
  token : result Token
}.

Record RoundTripOutcome (Resp : Type) : Type := mkRoundTripOutcome {
  request_after : HTTPRequest;
  sent : list HTTPRequest;
  returned : result Resp
}.
Arguments mkRoundTripOutcome {Resp} _ _ _.
Arguments request_after {Resp} _.
Arguments sent {Resp} _.
Arguments returned {Resp} _.

Definition RoundTrip {Resp : Type} (DefaultTransport : HTTPRequest → result Resp)
    (t : tokenTransport) (req : HTTPRequest) : RoundTripOutcome Resp :=
  match token t with
  | Err err => mkRoundTripOutcome req [] (Err err)
  | Ok tok =>
      let req :=
        mkHTTPRequest (Method req) (URL req)
          (Header_Set "Authorization" ("Bearer " +:+ AccessToken tok) (Header req))
          (RequestBody req) in
      mkRoundTripOutcome req [req] (DefaultTransport req)
  end.

End Transport.

(** A request that already carries an Authorization header, and a transport
    that answers with the Authorization value it received. *)
Definition sample_http_request : Transport.HTTPRequest :=
  Transport.mkHTTPRequest "POST" "https://example.test/v1/chat/completions"
    {[ "Authorization" := ["Bearer old"; "Basic abc"];
       "Content-Type" := ["application/json"] ]}
    "{}".

Definition sample_echo_transport (req : Transport.HTTPRequest) : result string :=
  Ok (Transport.Header_Get "Authorization" (Transport.Header req)).

(** ** Runs of the refresh loop *)

(** A process started with GOOGLE_CLOUD_PROJECT set to [project]. *)
Definition started (project : string) (p : Process) : Prop :=
  ∃ t0 reply evs,
    exited (main project t0 reply None) = None ∧
    exec evs (main project t0 reply None) = Some p.

Definition is_refresh (ev : Event) : bool :=
  match ev with
  | Refresh _ _ => true
  | _ => false
  end.

(** The refresh loop is alive and nothing was logged, or one failure was
    logged and no goroutine is left. *)
Definition loop_state (p : Process) : Prop :=
  (logs p = [] ∧ ∃ g, goroutines p = [g]) ∨
  (∃ e, logs p = ["Failed to refresh credentials: " +:+ e] ∧ goroutines p = []).

(** Where the goroutine of [token] stands while no refresh has been made
    since the clock read [t0]: not yet asleep, asleep until its deadline or
    later, or awake with the deadline behind it. *)
Definition waiting (token : Token) (t0 : GoTime.Instant) (p : Process) : Prop :=
  (t0 ≤ now p)%Z ∧
  (goroutines p = [GoSpawned token] ∨
   (∃ wake, goroutines p = [GoSleeping (refresh_deadline token) wake] ∧
            (refresh_deadline token ≤ wake)%Z) ∨
   (goroutines p = [GoRefreshing] ∧ (refresh_deadline token ≤ now p)%Z)).

(** One turn of the loop with no clock tick in it: the goroutine evaluates
    its sleep, returns from it, and the provider answers with [creds]. *)
Definition refresh_cycle (creds : Credentials) : list Event :=
  [Start 0; Wake 0; Refresh 0 (Ok creds)].

Fixpoint refresh_cycles (n : nat) (creds : Credentials) : list Event :=
  match n with
  | 0 => []
  | S n' => refresh_cycle creds ++ refresh_cycles n' creds
  end.

(** Credentials whose token is already inside the safety margin when the
    sample process receives them. *)
Definition sample_stale_token : Token := mkToken "ya29.stale" 100000000000%Z.

Definition sample_stale_creds : Credentials :=
  mkCredentials "demo-project" (mkTokenSource (Ok sample_stale_token)) "{}".

(** * Properties *)

(** ** The credential manager *)

Section CredentialManager.

Implicit Types (p q : Process) (s : Server) (reply : result Credentials).

Lemma refreshCredentials_success s creds token :
  TokenSource_Token (Credentials_TokenSource creds) = Ok token →
  refreshCredentials s (Ok creds) =
    mkRefreshOutcome
      {| config := config s; credential := Some creds; router := router s |}
      [GoSpawned token] None.
Proof. intros Htok. unfold refreshCredentials. by rewrite Htok. Qed.

(** An error leaves the server as it was and starts no goroutine. *)
Lemma refreshCredentials_failure s reply e :
  ro_err (refreshCredentials s reply) = Some e →
  ro_server (refreshCredentials s reply) = s ∧
  ro_spawned (refreshCredentials s reply) = [].
Proof.
  unfold refreshCredentials. destruct reply as [creds|e']; [|done].
  destruct (TokenSource_Token _); [discriminate|done].
Qed.

Lemma refreshCredentials_no_error s reply :
  ro_err (refreshCredentials s reply) = None →
  ∃ creds token,
    reply = Ok creds ∧
    TokenSource_Token (Credentials_TokenSource creds) = Ok token.
Proof.
  unfold refreshCredentials. destruct reply as [creds|e']; [|discriminate].
  destruct (TokenSource_Token _) as [token|] eqn:Htok; [|discriminate].
  intros _. by exists creds, token.
Qed.

(** Whatever the outcome, a refresh keeps the configuration and the
    router, spawns at most one goroutine, and never removes a credential. *)
Lemma refreshCredentials_frame s reply :
  let o := refreshCredentials s reply in
  config (ro_server o) = config s ∧
  router (ro_server o) = router s ∧
  length (ro_spawned o) ≤ 1 ∧
  (is_Some (credential s) → is_Some (credential (ro_server o))).
Proof.
  unfold refreshCredentials. destruct reply as [creds|e']; simpl; [|auto].
  destruct (TokenSource_Token _); simpl; eauto 10.
Qed.

(** A [main] that did not exit got credentials and a token, registered its
    routes, bound its port and left one goroutine behind. *)
Lemma main_running project t0 reply :
  exited (main project t0 reply None) = None →
  ∃ creds token,
    reply = Ok creds ∧
    TokenSource_Token (Credentials_TokenSource creds) = Ok token ∧
    main project t0 reply None =
      mkProcess
        (setupRoutes
           {| config := mkConfig project "us-central1" "openapi";
              credential := Some creds; router := gin_Default |})
        t0 [GoSpawned token] [] (Some ":8080") None.
Proof.
  unfold main.
  destruct (ro_err (refreshCredentials _ reply)) as [e|] eqn:Herr; [discriminate|].
  intros _. apply refreshCredentials_no_error in Herr as (creds & token & -> & Htok).
  exists creds, token. split_and!; [done..|].
  by rewrite (refreshCredentials_success _ _ _ Htok).
Qed.

Lemma main_is_running project t0 reply :
  exited (main project t0 reply None) = None →
  running (main project t0 reply None).
Proof.
  intros Hrun. destruct (main_running _ _ _ Hrun) as (creds & token & _ & _ & ->).
  repeat split; simpl; eauto.
Qed.

Lemma step_exited ev p q : step ev p = Some q → exited p = None.
Proof. unfold step. by destruct (exited p). Qed.

Lemma step_running ev p q : running p → step ev p = Some q → running q.
Proof.
  intros (Hex & Hcred & Hlen & Hl & Hr) Hstep. unfold step in Hstep.
  rewrite Hex in Hstep. destruct ev as [t|i|i|i reply]; simpl in Hstep.
  - case_decide; simplify_eq. by repeat split.
  - destruct (goroutines p !! i) as [[token|dl w|]|]; simplify_eq.
    repeat split; simpl; try done. by rewrite length_insert.
  - destruct (goroutines p !! i) as [[token|dl w|]|]; simplify_eq.
    case_decide; simplify_eq.
    repeat split; simpl; try done. by rewrite length_insert.
  - destruct (goroutines p !! i) as [[token|dl w|]|] eqn:Hi; simplify_eq.
    destruct (refreshCredentials_frame (server p) reply) as (Hc & Hro & Hsp & Hsome).
    repeat split; simpl; try done.
    + by apply Hsome.
    + rewrite length_app, length_delete by eauto. lia.
    + simpl in Hr |- *. by rewrite Hro.
Qed.

Lemma exec_running evs p q : running p → exec evs p = Some q → running q.
Proof.
  revert p. induction evs as [|ev evs IH]; intros p Hp Hexec; simpl in Hexec.
  - by simplify_eq.
  - destruct (step ev p) as [p'|] eqn:Hstep; [|discriminate].
    eapply IH; [|done]. by eapply step_running.
Qed.

Lemma reachable_running p : reachable p → running p.
Proof.
  intros (project & t0 & reply & evs & Hrun & Hexec).
  eapply exec_running; [|done]. by apply main_is_running.
Qed.

Lemma exec_app evs1 evs2 p q r :
  exec evs1 p = Some q → exec evs2 q = Some r → exec (evs1 ++ evs2) p = Some r.
Proof.
  revert p. induction evs1 as [|ev evs1 IH]; intros p H1 H2; simpl in *.
  - by simplify_eq.
  - destruct (step ev p); [eauto|discriminate].
Qed.

Lemma reachable_step ev p q : reachable p → step ev p = Some q → reachable q.
Proof.
  intros (project & t0 & reply & evs & Hrun & Hexec) Hstep.
  exists project, t0, reply, (evs ++ [ev]). split; [done|].
  eapply exec_app; [done|]. simpl. by rewrite Hstep.
Qed.

(** With no goroutine left, only the clock moves. *)
Lemma step_idle ev p q :
  goroutines p = [] → step ev p = Some q →
  goroutines q = [] ∧ server q = server p ∧ logs q = logs p.
Proof.
  intros Hgs Hstep. unfold step in Hstep. rewrite Hgs in Hstep.
  destruct (exited p); [discriminate|].
  destruct ev; simpl in Hstep; try discriminate.
  case_decide; by simplify_eq.
Qed.

Lemma exec_idle evs p q :
  goroutines p = [] → exec evs p = Some q →
  goroutines q = [] ∧ server q = server p ∧ logs q = logs p.
Proof.
  revert p. induction evs as [|ev evs IH]; intros p Hgs Hexec; simpl in Hexec.
  - by simplify_eq.
  - destruct (step ev p) as [p'|] eqn:Hstep; [|discriminate].
    destruct (step_idle _ _ _ Hgs Hstep) as (Hgs' & Hs & Hl).
    destruct (IH _ Hgs' Hexec) as (? & ? & ?). split_and!; congruence.
Qed.

(** The goroutine that runs a refresh is the only one there is. *)
Lemma refreshing_alone p i :
  running p → goroutines p !! i = Some GoRefreshing →
  goroutines p = [GoRefreshing] ∧ i = 0.
Proof.
  intros (_ & _ & Hlen & _) Hi.
  destruct (goroutines p) as [|g [|g' gs]]; simpl in *; [done| |lia].
  destruct i; simpl in Hi; [by simplify_eq|done].
Qed.

End CredentialManager.

Section RefreshLoop.

Implicit Types (p q r : Process) (s : Server) (reply : result Credentials).

Lemma sample_refreshing_run : exec sample_due sample_start = Some sample_refreshing.
Proof. reflexivity. Qed.

Lemma sample_refreshing_reachable : reachable sample_refreshing.
Proof.
  exists "demo-project", 0%Z, (Ok sample_creds), sample_due.
  split; [reflexivity|apply sample_refreshing_run].
Qed.

(** A refresh step that ends in an error: the server is untouched, the
    error is logged and the goroutine is gone. *)
Lemma failed_refresh_step p i reply e q :
  step (Refresh i reply) p = Some q →
  ro_err (refreshCredentials (server p) reply) = Some e →
  goroutines p !! i = Some GoRefreshing ∧
  server q = server p ∧
  goroutines q = delete i (goroutines p) ∧
  logs q = logs p ++ ["Failed to refresh credentials: " +:+ e].
Proof.
  intros Hstep Herr. unfold step in Hstep.
  destruct (exited p); [discriminate|]. simpl in Hstep.
  destruct (goroutines p !! i) as [[token|dl w|]|] eqn:Hi; simplify_eq.
  destruct (refreshCredentials_failure _ _ _ Herr) as [Hs Hsp].
  unfold finish_refresh; simpl. rewrite Hs, Hsp, Herr, app_nil_r. done.
Qed.

(** A refresh step that succeeds: the new credential is installed and the
    one goroutine of the process is the one just started. *)
Lemma successful_refresh_step p i reply q :
  running p →
  step (Refresh i reply) p = Some q →
  ro_err (refreshCredentials (server p) reply) = None →
  ∃ creds token,
    reply = Ok creds ∧
    TokenSource_Token (Credentials_TokenSource creds) = Ok token ∧
    goroutines p = [GoRefreshing] ∧
    currentToken q = Some creds ∧
    goroutines q = [GoSpawned token].
Proof.
  intros Hrun Hstep Herr.
  apply refreshCredentials_no_error in Herr as (creds & token & -> & Htok).
  exists creds, token. unfold step in Hstep.
  destruct Hrun as (Hex & Hrest). rewrite Hex in Hstep. simpl in Hstep.
  destruct (goroutines p !! i) as [[tk|dl w|]|] eqn:Hi; simplify_eq.
  destruct (refreshing_alone p i) as [Hgs ->]; [by split|done|].
  rewrite Htok. unfold finish_refresh, currentToken; simpl. rewrite Hgs. done.
Qed.

(** C1, as the code has it. When a scheduled refresh fails after a
    successful start, the credential installed before the attempt stays
    installed and is what handlers read from then on; the error is logged;
    and the refresh loop ends: the failed goroutine starts no successor,
    so no goroutine is left and no later run of the process changes the
    credential or makes another attempt. *)
Theorem failed_refresh_keeps_token_and_ends_loop p i reply e q :
  reachable p →
  step (Refresh i reply) p = Some q →
  ro_err (refreshCredentials (server p) reply) = Some e →
  currentToken q = currentToken p ∧
  is_Some (currentToken q) ∧
  logs q = logs p ++ ["Failed to refresh credentials: " +:+ e] ∧
  goroutines q = [] ∧
  ∀ evs r, exec evs q = Some r →
    currentToken r = currentToken p ∧
    goroutines r = [] ∧
    ∀ j reply', step (Refresh j reply') r = None.
Proof.
  intros Hreach Hstep Herr.
  pose proof (reachable_running _ Hreach) as Hrun.
  destruct (failed_refresh_step _ _ _ _ _ Hstep Herr) as (Hi & Hs & Hgs & Hlog).
  destruct (refreshing_alone _ _ Hrun Hi) as [Hone ->].
  assert (goroutines q = []) as Hnil by (by rewrite Hgs, Hone).
  unfold currentToken. rewrite Hs. split_and!; [done| |done..|].
  - by destruct Hrun as (_ & ? & _).
  - intros evs r Hexec.
    destruct (exec_idle _ _ _ Hnil Hexec) as (Hr & Hsr & _).
    split_and!; [congruence|done|].
    intros j reply'. unfold step. rewrite Hr.
    by destruct (exited r).
Qed.

Lemma failed_refresh_keeps_token_and_ends_loop_witness :
  currentToken sample_degraded = currentToken sample_refreshing ∧
  is_Some (currentToken sample_degraded) ∧
  logs sample_degraded =
    logs sample_refreshing ++
      ["Failed to refresh credentials: " +:+ "failed to get credentials: provider unreachable"] ∧
  goroutines sample_degraded = [] ∧
  ∀ evs r, exec evs sample_degraded = Some r →
    currentToken r = currentToken sample_refreshing ∧
    goroutines r = [] ∧
    ∀ j reply', step (Refresh j reply') r = None.
Proof.
  apply (failed_refresh_keeps_token_and_ends_loop
           sample_refreshing 0 (Err "provider unreachable")).
  - exists "demo-project", 0%Z, (Ok sample_creds), sample_due.
    split; reflexivity.
  - reflexivity.
  - reflexivity.
Defined.

(** C1, as the claim states it, fails: in the sample run the provider is
    unreachable at the scheduled refresh; the old credential stays, but no
    goroutine is left that could retry. *)
Lemma failed_refresh_is_not_retried :
  reachable sample_refreshing ∧
  step (Refresh 0 (Err "provider unreachable")) sample_refreshing = Some sample_degraded ∧
  currentToken sample_degraded = Some sample_creds ∧
  goroutines sample_degraded = [] ∧
  ¬ retries_after_failed_refresh.
Proof.
  split_and!; [apply sample_refreshing_reachable|reflexivity..|].
  intros Hclaim.
  destruct (Hclaim sample_refreshing 0 (Err "provider unreachable")
              "failed to get credentials: provider unreachable" sample_degraded)
    as [_ Hretry]; [apply sample_refreshing_reachable|reflexivity..|].
  by apply Hretry.
Qed.

End RefreshLoop.

Section Invariants.

Implicit Types (p q r : Process) (s : Server) (reply : result Credentials).

(** C4. Once [main] has its first credential, every state the process can
    reach has a credential installed, and a refresh that fails leaves the
    installed credential exactly as it was before the attempt. *)
Theorem token_never_absent p :
  reachable p →
  (∃ creds, currentToken p = Some creds) ∧
  ∀ i reply e q,
    step (Refresh i reply) p = Some q →
    ro_err (refreshCredentials (server p) reply) = Some e →
    currentToken q = currentToken p.
Proof.
  intros Hreach. split.
  - destruct (reachable_running _ Hreach) as (_ & [creds Hc] & _).
    by exists creds.
  - intros i reply e q Hstep Herr.
    destruct (failed_refresh_step _ _ _ _ _ Hstep Herr) as (_ & Hs & _).
    unfold currentToken. by rewrite Hs.
Qed.

Lemma token_never_absent_witness :
  (∃ creds, currentToken sample_refreshing = Some creds) ∧
  ∀ i reply e q,
    step (Refresh i reply) sample_refreshing = Some q →
    ro_err (refreshCredentials (server sample_refreshing) reply) = Some e →
    currentToken q = currentToken sample_refreshing.
Proof.
  apply (token_never_absent sample_refreshing).
  exists "demo-project", 0%Z, (Ok sample_creds), sample_due.
  split; reflexivity.
Defined.

Lemma armed_timers_length p : length (armed_timers p) ≤ length (goroutines p).
Proof. unfold armed_timers. apply length_filter. Qed.

(** C6. In every state the running process can reach at most one refresh
    timer is armed; and a refresh that succeeds finds no timer armed (the
    one that fired is the goroutine making the call) and leaves exactly
    one, the one it has just started. *)
Theorem at_most_one_timer_armed p :
  reachable p →
  length (armed_timers p) ≤ 1 ∧
  ∀ i reply q,
    step (Refresh i reply) p = Some q →
    ro_err (refreshCredentials (server p) reply) = None →
    armed_timers p = [] ∧
    ∃ token, goroutines q = [GoSpawned token] ∧ armed_timers q = [GoSpawned token].
Proof.
  intros Hreach. pose proof (reachable_running _ Hreach) as Hrun. split.
  - etrans; [apply armed_timers_length|]. by destruct Hrun as (_ & _ & ? & _).
  - intros i reply q Hstep Hok.
    destruct (successful_refresh_step _ _ _ _ Hrun Hstep Hok)
      as (creds & token & _ & _ & Hp & _ & Hq).
    unfold armed_timers. rewrite Hp, Hq. split; [done|]. by exists token.
Qed.

Lemma at_most_one_timer_armed_witness :
  length (armed_timers sample_refreshing) ≤ 1 ∧
  ∀ i reply q,
    step (Refresh i reply) sample_refreshing = Some q →
    ro_err (refreshCredentials (server sample_refreshing) reply) = None →
    armed_timers sample_refreshing = [] ∧
    ∃ token, goroutines q = [GoSpawned token] ∧ armed_timers q = [GoSpawned token].
Proof.
  apply (at_most_one_timer_armed sample_refreshing).
  exists "demo-project", 0%Z, (Ok sample_creds), sample_due.
  split; reflexivity.
Defined.

Lemma Sleep_Until_in_range (t deadline : GoTime.Instant) :
  (deadline - t ≤ GoTime.maxDuration)%Z →
  GoTime.Sleep t (GoTime.Until t deadline) = Z.max t deadline.
Proof.
  unfold GoTime.Sleep, GoTime.Until, GoTime.Sub, GoTime.minDuration, GoTime.maxDuration.
  lia.
Qed.


Lemma Sleep_not_before (t : GoTime.Instant) (d : GoTime.Duration) :
  (t ≤ GoTime.Sleep t d)%Z.
Proof. unfold GoTime.Sleep. lia. Qed.


End Invariants.

Section Startup.


(** C5. When the first, synchronous [refreshCredentials] returns an error,
    [main] logs it and exits with status 1: no route was registered, the
    port was never bound, no goroutine is left, the process takes no
    further step, and every request would find no route. *)
Theorem startup_failure_is_fatal project t0 reply run_err e :
  ro_err (refreshCredentials (NewServer (mkConfig project "us-central1" "openapi")) reply)
    = Some e →
  let p := main project t0 reply run_err in
  exited p = Some 1%Z ∧
  listening p = None ∧
  routes (router (server p)) = [] ∧
  goroutines p = [] ∧
  logs p = ["Failed to initialize credentials: " +:+ e] ∧
  (∀ ev, step ev p = None) ∧
  (∀ evs q, exec evs p = Some q → q = p) ∧
  (∀ m path, lookup_route (router (server p)) m path = NoRoute).
Proof.
  intros Herr p.
  destruct (refreshCredentials_failure _ _ _ Herr) as [Hs _].
  assert (p = mkProcess (NewServer (mkConfig project "us-central1" "openapi")) t0 []
                ["Failed to initialize credentials: " +:+ e] None (Some 1%Z)) as ->.
  { unfold p, main. rewrite Herr, Hs. reflexivity. }
  split_and!; try reflexivity.
  - intros [|ev evs] q Hexec; simpl in Hexec; [by simplify_eq|].
    by destruct ev.
  - intros m path. unfold lookup_route; simpl.
    by destruct (strip_trailing_slash path), (String.eqb path "/").
Qed.

Lemma startup_failure_is_fatal_witness :
  let p := main "demo-project" 0%Z (Err "could not find default credentials") None in
  exited p = Some 1%Z ∧
  listening p = None ∧
  routes (router (server p)) = [] ∧
  goroutines p = [] ∧
  logs p = ["Failed to initialize credentials: " +:+
            "failed to get credentials: could not find default credentials"] ∧
  (∀ ev, step ev p = None) ∧
  (∀ evs q, exec evs p = Some q → q = p) ∧
  (∀ m path, lookup_route (router (server p)) m path = NoRoute).
Proof.
  apply (startup_failure_is_fatal "demo-project" 0%Z
           (Err "could not find default credentials") None).
  reflexivity.
Defined.

End Startup.

(** ** The request forwarder *)

Section Forwarder.
Context {F R : Type} {openai : OpenAI F R}.

Implicit Types (p : Process) (s : Server) (request : ChatCompletionRequest F).

(** The handler on a body that parses, with a credential installed: one
    call upstream, one response. *)
Lemma handleChatCompletions_bound s body request cred :
  BindJSON body = Ok request →
  credential s = Some cred →
  handleChatCompletions s body new_context =
    mkCtx
      [match CreateChatCompletion (client_of s cred) (forwarded request) with
       | Err err => mkResponse StatusInternalServerError (BodyJSON (JObj [("error", JStr err)]))
       | Ok resp => mkResponse StatusOK (BodyJSON (Response_json resp))
       end]
      [(client_of s cred, forwarded request)]
      false.
Proof.
  intros Hbind Hcred. unfold handleChatCompletions. rewrite Hbind, Hcred.
  fold (client_of s cred). fold (forwarded request).
  by destruct (CreateChatCompletion _ _).
Qed.

Lemma handleChatCompletions_malformed s body err :
  BindJSON body = Err err →
  handleChatCompletions s body new_context =
    mkCtx [mkResponse StatusBadRequest (BodyJSON (JObj [("error", JStr err)]))] [] false.
Proof. intros Hbind. unfold handleChatCompletions. by rewrite Hbind. Qed.

(** A running process routes POST /v1/chat/completions to the handler. *)
Lemma ServeHTTP_chat p body :
  running p →
  ServeHTTP (server p) (mkRequest "POST" "/v1/chat/completions" body) =
    handleChatCompletions (server p) body new_context.
Proof.
  intros (_ & _ & _ & _ & Hrouter). unfold ServeHTTP. rewrite Hrouter. reflexivity.
Qed.

Lemma ServeHTTP_chat_bound p body request :
  reachable p →
  BindJSON body = Ok request →
  ∃ cred,
    currentToken p = Some cred ∧
    ServeHTTP (server p) (mkRequest "POST" "/v1/chat/completions" body) =
      mkCtx
        [match CreateChatCompletion (client_of (server p) cred) (forwarded request) with
         | Err err => mkResponse StatusInternalServerError (BodyJSON (JObj [("error", JStr err)]))
         | Ok resp => mkResponse StatusOK (BodyJSON (Response_json resp))
         end]
        [(client_of (server p) cred, forwarded request)]
        false.
Proof.
  intros Hreach Hbind. pose proof (reachable_running _ Hreach) as Hrun.
  destruct (Hrun) as (Hex & [cred Hcred] & Hrest). exists cred. split; [done|].
  rewrite (ServeHTTP_chat _ _ Hrun).
  by apply handleChatCompletions_bound.
Qed.

(** C7. Whatever model the caller named, the request that a running
    process sends upstream for a well-formed chat-completion request names
    the model google/gemini-2.0-flash-001. *)
Theorem upstream_model_is_overridden p body request :
  reachable p →
  BindJSON body = Ok request →
  let c := ServeHTTP (server p) (mkRequest "POST" "/v1/chat/completions" body) in
  upstream_calls c ≠ [] ∧
  Forall (λ call, Model call.2 = "google/gemini-2.0-flash-001") (upstream_calls c).
Proof.
  intros Hreach Hbind c.
  destruct (ServeHTTP_chat_bound _ _ _ Hreach Hbind) as (cred & _ & Hc).
  unfold c. rewrite Hc. simpl. split; [done|].
  apply Forall_singleton. reflexivity.
Qed.

(** C9. For a well-formed request a running process calls the upstream
    exactly once and writes exactly one response: status 500 with the
    upstream's error message under "error" when the call fails, status 200
    with the upstream's answer as the body when it succeeds. *)
Theorem upstream_result_is_relayed p body request :
  reachable p →
  BindJSON body = Ok request →
  let c := ServeHTTP (server p) (mkRequest "POST" "/v1/chat/completions" body) in
  ∃ cfg req,
    upstream_calls c = [(cfg, req)] ∧
    panicked c = false ∧
    match CreateChatCompletion cfg req with
    | Err err =>
        written c = [mkResponse 500 (BodyJSON (JObj [("error", JStr err)]))]
    | Ok resp =>
        written c = [mkResponse 200 (BodyJSON (Response_json resp))]
    end.
Proof.
  intros Hreach Hbind c.
  destruct (ServeHTTP_chat_bound _ _ _ Hreach Hbind) as (cred & _ & Hc).
  exists (client_of (server p) cred), (forwarded request).
  unfold c. rewrite Hc. simpl. split_and!; [done..|].
  by destruct (CreateChatCompletion _ _).
Qed.

(** C10. The request sent upstream is the parsed request with its Model
    field replaced and nothing else touched. *)
Theorem forwarded_fields_unchanged p body request :
  reachable p →
  BindJSON body = Ok request →
  let c := ServeHTTP (server p) (mkRequest "POST" "/v1/chat/completions" body) in
  ∃ cfg req,
    upstream_calls c = [(cfg, req)] ∧
    Fields req = Fields request ∧
    req = mkChatCompletionRequest (Model req) (Fields request).
Proof.
  intros Hreach Hbind c.
  destruct (ServeHTTP_chat_bound _ _ _ Hreach Hbind) as (cred & _ & Hc).
  exists (client_of (server p) cred), (forwarded request).
  unfold c. rewrite Hc. by split_and!.
Qed.

End Forwarder.

Section ForwarderSamples.

#[local] Existing Instance sample_openai.

Lemma sample_start_reachable : reachable sample_start.
Proof. exists "demo-project", 0%Z, (Ok sample_creds), []. split; reflexivity. Qed.

Lemma upstream_model_is_overridden_witness :
  let c := ServeHTTP (openai := sample_openai) (server sample_start)
             (mkRequest "POST" "/v1/chat/completions" "model gpt-4") in
  upstream_calls c ≠ [] ∧
  Forall (λ call, Model call.2 = "google/gemini-2.0-flash-001") (upstream_calls c).
Proof.
  apply (upstream_model_is_overridden (openai := sample_openai)
           sample_start "model gpt-4" (mkChatCompletionRequest "gpt-4" 1)).
  - exists "demo-project", 0%Z, (Ok sample_creds), []. split; reflexivity.
  - reflexivity.
Defined.

Lemma upstream_result_is_relayed_witness :
  let c := ServeHTTP (openai := sample_openai) (server sample_start)
             (mkRequest "POST" "/v1/chat/completions" "overloaded") in
  ∃ cfg req,
    upstream_calls c = [(cfg, req)] ∧
    panicked c = false ∧
    match CreateChatCompletion cfg req with
    | Err err =>
        written c = [mkResponse 500 (BodyJSON (JObj [("error", JStr err)]))]
    | Ok resp =>
        written c = [mkResponse 200 (BodyJSON (Response_json resp))]
    end.
Proof.
  apply (upstream_result_is_relayed (openai := sample_openai)
           sample_start "overloaded" (mkChatCompletionRequest "gpt-4" 0)).
  - exists "demo-project", 0%Z, (Ok sample_creds), []. split; reflexivity.
  - reflexivity.
Defined.

Lemma forwarded_fields_unchanged_witness :
  let c := ServeHTTP (openai := sample_openai) (server sample_start)
             (mkRequest "POST" "/v1/chat/completions" "model gpt-4") in
  ∃ cfg req,
    upstream_calls c = [(cfg, req)] ∧
    Fields req = Fields (mkChatCompletionRequest "gpt-4" 1) ∧
    req = mkChatCompletionRequest (Model req) (Fields (mkChatCompletionRequest "gpt-4" 1)).
Proof.
  apply (forwarded_fields_unchanged (openai := sample_openai)
           sample_start "model gpt-4" (mkChatCompletionRequest "gpt-4" 1)).
  - exists "demo-project", 0%Z, (Ok sample_creds), []. split; reflexivity.
  - reflexivity.
Defined.

(** The two outcomes of the sample upstream, as the caller sees them. *)
Example sample_upstream_failure :
  written (ServeHTTP (openai := sample_openai) (server sample_start)
             (mkRequest "POST" "/v1/chat/completions" "overloaded")) =
    [mkResponse 500 (BodyJSON (JObj [("error", JStr "status code: 503")]))].
Proof. reflexivity. Qed.

Example sample_upstream_success :
  written (ServeHTTP (openai := sample_openai) (server sample_start)
             (mkRequest "POST" "/v1/chat/completions" "model gpt-4")) =
    [mkResponse 200 (BodyJSON (JStr "answer of google/gemini-2.0-flash-001"))].
Proof. reflexivity. Qed.

End ForwarderSamples.

(** ** The model catalog *)

Section Catalog.
Context {F R : Type} {openai : OpenAI F R}.

Lemma AvailableModels_list : (map_to_list AvailableModels).*2 = [gemini_entry].
Proof. unfold AvailableModels. by rewrite map_to_list_singleton. Qed.

(** X1. GET /v1/models answers 200 with a list whose data is exactly the one
    entry of the catalog. *)
Theorem list_models_one_entry (cfg : Config) :
  ServeHTTP (setupRoutes (NewServer cfg)) (mkRequest "GET" "/v1/models" "") =
    mkCtx [mkResponse 200
             (BodyJSON (JObj [("object", JStr "list");
                              ("data", JArr [ModelObject_json gemini_entry])]))]
      [] false.
Proof.
  unfold ServeHTTP. cbn [lookup_route setupRoutes NewServer router req_method req_path].
  change (lookup_route _ "GET" "/v1/models") with (Found HListModels []).
  cbn [run_handler]. unfold handleListModels. by rewrite AvailableModels_list.
Qed.

(** The handler itself knows the catalog's model. *)
Lemma handleRetrieveModel_gemini (s : Server) :
  handleRetrieveModel (F := F) s [("model", "google/gemini-2.0-flash-001")] new_context =
    mkCtx [mkResponse 200 (BodyJSON (ModelObject_json gemini_entry))] [] false.
Proof.
  unfold handleRetrieveModel. cbn [Param String.eqb Ascii.eqb Bool.eqb].
  change (Param _ _) with gemini.
  unfold AvailableModels. by rewrite lookup_singleton_eq.
Qed.

(** C8, at the input where the code departs from it. The one model of the
    catalog has a slash in its identifier; the route /v1/models/:model
    takes exactly one path segment for [:model], so
    GET /v1/models/google/gemini-2.0-flash-001 matches no route and gin
    answers with its plain-text 404. The handler, given that identifier,
    would have answered 200 with the entry. *)
Theorem catalog_model_is_unroutable (cfg : Config) :
  let s := setupRoutes (NewServer cfg) in
  lookup_route (router s) "GET" "/v1/models/google/gemini-2.0-flash-001" = NoRoute ∧
  ServeHTTP s (mkRequest "GET" "/v1/models/google/gemini-2.0-flash-001" "") =
    mkCtx [mkResponse 404 (BodyText "404 page not found")] [] false ∧
  handleRetrieveModel (F := F) s [("model", "google/gemini-2.0-flash-001")] new_context =
    mkCtx [mkResponse 200 (BodyJSON (ModelObject_json gemini_entry))] [] false.
Proof.
  intros s. split_and!.
  - reflexivity.
  - reflexivity.
  - apply handleRetrieveModel_gemini.
Qed.

End Catalog.

Section CatalogUnknown.
Context {F R : Type} {openai : OpenAI F R}.

Lemma split_path_no_slash (id : string) :
  has_slash id = false → split_path id = [id].
Proof.
  induction id as [|c id IH]; simpl; [done|].
  intros [Hc Hid]%orb_false_iff. rewrite Hc, (IH Hid). done.
Qed.

Lemma has_slash_gemini (id : string) :
  has_slash id = false → id ≠ "google/gemini-2.0-flash-001".
Proof. intros Hid ->. discriminate Hid. Qed.

(** X2. GET /v1/models/id, for an [id] of one path segment that the catalog
    does not have, answers 404 with an error object whose code is
    model_not_found and whose message names the id. *)
Theorem retrieve_unknown_model (cfg : Config) (id : string) :
  has_slash id = false → id ≠ "" →
  let c := ServeHTTP (F := F) (setupRoutes (NewServer cfg))
             (mkRequest "GET" ("/v1/models/" +:+ id) "") in
  ∃ err,
    written c = [mkResponse 404 (BodyJSON (JObj [("error", err)]))] ∧
    json_get "code" err = Some (JStr "model_not_found") ∧
    json_get "message" err = Some (JStr ("The model '" +:+ id +:+ "' does not exist")).
Proof.
  intros Hslash Hne c.
  assert (lookup_route (router (setupRoutes (NewServer cfg))) "GET" ("/v1/models/" +:+ id)
          = Found HRetrieveModel [("model", id)]) as Hlookup.
  { unfold lookup_route, setupRoutes, add_route, NewServer, gin_Default.
    cbn [router routes app find_route match_route route_method route_pattern
         route_handler String.eqb Ascii.eqb Bool.eqb].
    change (split_path ("/v1/models/" +:+ id))
      with ("" :: "v1" :: "models" :: split_path id).
    rewrite (split_path_no_slash _ Hslash).
    cbn [match_segments String.eqb Ascii.eqb Bool.eqb app].
    destruct id as [|a id]; [done|]. reflexivity. }
  unfold c, ServeHTTP. cbn [req_method req_path]. rewrite Hlookup.
  cbn [run_handler]. unfold handleRetrieveModel.
  cbn [Param String.eqb Ascii.eqb Bool.eqb].
  unfold AvailableModels, gemini.
  rewrite lookup_singleton_ne by (symmetry; by apply has_slash_gemini).
  eexists. split_and!; reflexivity.
Qed.

End CatalogUnknown.

(** ** Further properties of the handlers and the refresh loop *)

Section Further.
Context {F R : Type} {openai : OpenAI F R}.

(** X3. A body that [c.BindJSON] rejects is answered with 400 and the
    binding error, and nothing is sent upstream. *)
Theorem malformed_request_rejected (p : Process) (body : string) (err : error) :
  reachable p →
  BindJSON body = Err err →
  ServeHTTP (server p) (mkRequest "POST" "/v1/chat/completions" body) =
    mkCtx [mkResponse 400 (BodyJSON (JObj [("error", JStr err)]))] [] false.
Proof.
  intros Hreach Hbind.
  rewrite (ServeHTTP_chat _ _ (reachable_running _ Hreach)).
  by apply handleChatCompletions_malformed.
Qed.

(** X4. A refresh that succeeds installs the credentials it was given: from
    then on handlers read the new ones, and nothing is logged. *)
Theorem successful_refresh_installs (p q : Process) (i : nat) (creds : Credentials) :
  reachable p →
  step (Refresh i (Ok creds)) p = Some q →
  ro_err (refreshCredentials (server p) (Ok creds)) = None →
  currentToken q = Some creds ∧ logs q = logs p ∧ reachable q.
Proof.
  intros Hreach Hstep Hok.
  destruct (successful_refresh_step _ _ _ _ (reachable_running _ Hreach) Hstep Hok)
    as (creds' & token & Heq & Htok & _ & Hcur & _).
  injection Heq as <-. split_and!; [done| |by eapply reachable_step].
  unfold step in Hstep. destruct (exited p); [discriminate|]. simpl in Hstep.
  destruct (goroutines p !! i) as [[tk|dl w|]|]; try discriminate.
  injection Hstep as <-. unfold finish_refresh; simpl. by rewrite Htok.
Qed.

End Further.

Section FurtherSamples.

#[local] Existing Instance sample_openai.

Lemma malformed_request_rejected_witness :
  ServeHTTP (server sample_start) (mkRequest "POST" "/v1/chat/completions" "") =
    mkCtx [mkResponse 400 (BodyJSON (JObj [("error", JStr "EOF")]))] [] false.
Proof.
  apply (malformed_request_rejected (openai := sample_openai) sample_start "" "EOF").
  - exists "demo-project", 0%Z, (Ok sample_creds), []. split; reflexivity.
  - reflexivity.
Defined.

Lemma successful_refresh_installs_witness :
  ∃ q, step (Refresh 0 (Ok sample_renewed_creds)) sample_refreshing = Some q ∧
       currentToken q = Some sample_renewed_creds ∧
       logs q = logs sample_refreshing ∧ reachable q.
Proof.
  eexists. split; [reflexivity|].
  apply (successful_refresh_installs sample_refreshing _ 0 sample_renewed_creds).
  - exists "demo-project", 0%Z, (Ok sample_creds), sample_due. split; reflexivity.
  - reflexivity.
  - reflexivity.
Defined.

Lemma retrieve_unknown_model_witness :
  let c := ServeHTTP (F := nat) (setupRoutes (NewServer (mkConfig "demo-project" "us-central1" "openapi")))
             (mkRequest "GET" ("/v1/models/" +:+ "gpt-4") "") in
  ∃ err,
    written c = [mkResponse 404 (BodyJSON (JObj [("error", err)]))] ∧
    json_get "code" err = Some (JStr "model_not_found") ∧
    json_get "message" err = Some (JStr ("The model '" +:+ "gpt-4" +:+ "' does not exist")).
Proof.
  apply (retrieve_unknown_model (F := nat)
           (mkConfig "demo-project" "us-central1" "openapi") "gpt-4").
  - reflexivity.
  - discriminate.
Defined.

End FurtherSamples.

(** ** The life of the refresh loop *)

Section LoopLife.

Implicit Types (p q : Process) (ev : Event) (evs : list Event).

(** What a step is, event by event. *)
Lemma step_cases ev p q :
  step ev p = Some q →
  exited p = None ∧
  ((∃ t, ev = Tick t ∧ (now p ≤ t)%Z ∧
         q = mkProcess (server p) t (goroutines p) (logs p) (listening p) (exited p)) ∨
   (∃ i token, ev = Start i ∧ goroutines p !! i = Some (GoSpawned token) ∧
         q = set_goroutines p
               (<[i := GoSleeping (refresh_deadline token)
                         (GoTime.Sleep (now p) (GoTime.Until (now p) (refresh_deadline token)))]>
                  (goroutines p))) ∨
   (∃ i deadline wake, ev = Wake i ∧
         goroutines p !! i = Some (GoSleeping deadline wake) ∧ (wake ≤ now p)%Z ∧
         q = set_goroutines p (<[i := GoRefreshing]> (goroutines p))) ∨
   (∃ i reply, ev = Refresh i reply ∧ goroutines p !! i = Some GoRefreshing ∧
         q = finish_refresh p i (refreshCredentials (server p) reply))).
Proof.
  intros Hstep. unfold step in Hstep.
  destruct (exited p) eqn:Hex; [discriminate|]. split; [done|].
  destruct ev as [t|i|i|i reply]; simpl in Hstep.
  - case_decide; [|discriminate]. injection Hstep as <-. left. by exists t.
  - destruct (goroutines p !! i) as [[token|dl w|]|] eqn:Hi; try discriminate.
    injection Hstep as <-. right; left. by exists i, token.
  - destruct (goroutines p !! i) as [[token|dl w|]|] eqn:Hi; try discriminate.
    case_decide; [|discriminate]. injection Hstep as <-.
    right; right; left. by exists i, dl, w.
  - destruct (goroutines p !! i) as [[token|dl w|]|] eqn:Hi; try discriminate.
    injection Hstep as <-. right; right; right. by exists i, reply.
Qed.

Lemma step_Tick p t :
  exited p = None → (now p ≤ t)%Z →
  step (Tick t) p =
    Some (mkProcess (server p) t (goroutines p) (logs p) (listening p) (exited p)).
Proof. intros Hex Ht. unfold step. rewrite Hex. by rewrite decide_True. Qed.

Lemma step_Start p i token :
  exited p = None → goroutines p !! i = Some (GoSpawned token) →
  step (Start i) p =
    Some (set_goroutines p
            (<[i := GoSleeping (refresh_deadline token)
                      (GoTime.Sleep (now p) (GoTime.Until (now p) (refresh_deadline token)))]>
               (goroutines p))).
Proof. intros Hex Hi. unfold step. by rewrite Hex, Hi. Qed.

Lemma step_Wake p i deadline wake :
  exited p = None → goroutines p !! i = Some (GoSleeping deadline wake) →
  (wake ≤ now p)%Z →
  step (Wake i) p = Some (set_goroutines p (<[i := GoRefreshing]> (goroutines p))).
Proof. intros Hex Hi Hw. unfold step. rewrite Hex, Hi. by rewrite decide_True. Qed.

Lemma step_Refresh p i reply :
  exited p = None → goroutines p !! i = Some GoRefreshing →
  step (Refresh i reply) p =
    Some (finish_refresh p i (refreshCredentials (server p) reply)).
Proof. intros Hex Hi. unfold step. by rewrite Hex, Hi. Qed.

Lemma exec_cons ev evs p p' :
  step ev p = Some p' → exec (ev :: evs) p = exec evs p'.
Proof. intros Hs. simpl. by rewrite Hs. Qed.

Lemma exec_invariant (P : Process → Prop) :
  (∀ ev p q, P p → step ev p = Some q → P q) →
  ∀ evs p q, P p → exec evs p = Some q → P q.
Proof.
  intros Hstep evs. induction evs as [|ev evs IH]; intros p q Hp Hexec; simpl in Hexec.
  - by injection Hexec as <-.
  - destruct (step ev p) as [p'|] eqn:Hs; [|discriminate]. eauto.
Qed.

Lemma singleton_lookup {A} (g x : A) (i : nat) :
  [g] !! i = Some x → i = 0 ∧ x = g.
Proof. destruct i; simpl; [by intros [= ->]|done]. Qed.

Lemma step_loop_state ev p q : loop_state p → step ev p = Some q → loop_state q.
Proof.
  intros Hloop Hstep.
  destruct (step_cases _ _ _ Hstep) as
    (_ & [(t & -> & _ & ->)|[(i & token & -> & Hi & ->)|
          [(i & dl & w & -> & Hi & _ & ->)|(i & reply & -> & Hi & ->)]]]).
  - exact Hloop.
  - destruct Hloop as [(Hlog & g & Hg)|(e & _ & Hg)]; simpl in *;
      rewrite Hg in Hi |- *; [|done].
    apply singleton_lookup in Hi as [-> _]. left. split; [done|]. by eexists.
  - destruct Hloop as [(Hlog & g & Hg)|(e & _ & Hg)]; simpl in *;
      rewrite Hg in Hi |- *; [|done].
    apply singleton_lookup in Hi as [-> _]. left. split; [done|]. by eexists.
  - destruct Hloop as [(Hlog & g & Hg)|(e & _ & Hg)];
      rewrite Hg in Hi; [|done].
    apply singleton_lookup in Hi as [-> _].
    unfold loop_state, finish_refresh; simpl. rewrite Hg, Hlog; simpl.
    destruct (ro_err (refreshCredentials (server p) reply)) as [e|] eqn:Herr.
    + right. exists e. split; [done|].
      by destruct (refreshCredentials_failure _ _ _ Herr) as [_ ->].
    + left. split; [done|].
      apply refreshCredentials_no_error in Herr as (creds & token & -> & Htok).
      rewrite (refreshCredentials_success _ _ _ Htok). by eexists.
Qed.

Lemma main_loop_state project t0 reply :
  exited (main project t0 reply None) = None →
  loop_state (main project t0 reply None).
Proof.
  intros Hrun. destruct (main_running _ _ _ Hrun) as (creds & token & _ & _ & ->).
  left. split; [done|]. by eexists.
Qed.

Lemma reachable_loop_state p : reachable p → loop_state p.
Proof.
  intros (project & t0 & reply & evs & Hrun & Hexec).
  eapply (exec_invariant loop_state); [apply step_loop_state| |done].
  by apply main_loop_state.
Qed.

(** X5. A running process is in one of two conditions. Either nothing has
    been logged and exactly one goroutine of the refresh loop exists; or
    exactly one line, a refresh failure, has been logged and no goroutine
    is left. So the line "Failed to refresh credentials" appears at most
    once, and it marks the end of all refreshing. *)
Theorem refresh_loop_alive_until_logged p :
  reachable p →
  (logs p = [] ∧ ∃ g, goroutines p = [g]) ∨
  (∃ e, logs p = ["Failed to refresh credentials: " +:+ e] ∧ goroutines p = []).
Proof. intros Hreach. exact (reachable_loop_state p Hreach). Qed.

Lemma refresh_loop_alive_until_logged_witness :
  (logs sample_degraded = [] ∧ ∃ g, goroutines sample_degraded = [g]) ∨
  (∃ e, logs sample_degraded = ["Failed to refresh credentials: " +:+ e] ∧
        goroutines sample_degraded = []).
Proof.
  apply (refresh_loop_alive_until_logged sample_degraded).
  exists "demo-project", 0%Z, (Ok sample_creds),
    (sample_due ++ [Refresh 0 (Err "provider unreachable")]).
  split; reflexivity.
Defined.

(** X6. As long as no refresh has failed, the loop is not stuck: some
    schedule of clock ticks and goroutine steps brings the process to its
    next call of [refreshCredentials]. *)
Theorem refresh_loop_can_progress p :
  reachable p →
  logs p = [] →
  ∃ evs q,
    exec evs p = Some q ∧
    goroutines q = [GoRefreshing] ∧
    Forall (λ ev, is_refresh ev = false) evs ∧
    currentToken q = currentToken p.
Proof.
  intros Hreach Hlog.
  destruct (reachable_running _ Hreach) as (Hex & _).
  destruct (reachable_loop_state _ Hreach) as [(_ & g & Hg)|(e & Hlog' & _)];
    [|by rewrite Hlog in Hlog'].
  destruct g as [token|dl w|].
  - set (dl := refresh_deadline token).
    set (w := GoTime.Sleep (now p) (GoTime.Until (now p) dl)).
    exists [Start 0; Tick w; Wake 0]. eexists. split_and!.
    + erewrite exec_cons by (apply step_Start; [done|by rewrite Hg]).
      erewrite exec_cons by (apply step_Tick; [done|apply Sleep_not_before]).
      erewrite exec_cons;
        [reflexivity|apply (step_Wake _ _ dl w); [done|by rewrite Hg|simpl; lia]].
    + by rewrite Hg.
    + by repeat constructor.
    + done.
  - exists [Tick (Z.max (now p) w); Wake 0]. eexists. split_and!.
    + erewrite exec_cons by (apply step_Tick; [done|lia]).
      erewrite exec_cons;
        [reflexivity|apply (step_Wake _ _ dl w); [done|by rewrite Hg|simpl; lia]].
    + by rewrite Hg.
    + by repeat constructor.
    + done.
  - exists [], p. split_and!; [done|done|constructor|done].
Qed.

Lemma refresh_loop_can_progress_witness :
  ∃ evs q,
    exec evs sample_start = Some q ∧
    goroutines q = [GoRefreshing] ∧
    Forall (λ ev, is_refresh ev = false) evs ∧
    currentToken q = currentToken sample_start.
Proof.
  apply (refresh_loop_can_progress sample_start).
  - exists "demo-project", 0%Z, (Ok sample_creds), []. split; reflexivity.
  - reflexivity.
Defined.

End LoopLife.

Section Schedule.

Implicit Types (p q : Process) (ev : Event) (evs : list Event) (token : Token).

Lemma exec_snoc evs ev p q :
  exec (evs ++ [ev]) p = Some q →
  ∃ p1, exec evs p = Some p1 ∧ step ev p1 = Some q.
Proof.
  revert p. induction evs as [|e evs IH]; intros p Hexec; simpl in *.
  - destruct (step ev p) as [p'|] eqn:Hs; [|discriminate].
    injection Hexec as <-. eauto.
  - destruct (step e p) as [p'|]; [|discriminate]. eauto.
Qed.

Lemma step_waiting token t0 ev p q :
  (refresh_deadline token - t0 ≤ GoTime.maxDuration)%Z →
  is_refresh ev = false →
  waiting token t0 p → step ev p = Some q → waiting token t0 q.
Proof.
  intros Hrange Hev (Hnow & Hstate) Hstep.
  destruct (step_cases _ _ _ Hstep) as
    (_ & [(t & -> & Ht & ->)|[(i & tk & -> & Hi & ->)|
          [(i & dl & w & -> & Hi & Hw & ->)|(i & reply & -> & _ & _)]]]);
    [| | |discriminate Hev]; unfold waiting; simpl.
  - split; [lia|].
    destruct Hstate as [Hs|[(w & Hs & Hw)|[Hs Hd]]]; [by left|right; left; eauto|].
    right; right. split; [done|lia].
  - split; [done|].
    destruct Hstate as [Hs|[(w & Hs & Hw)|[Hs Hd]]]; rewrite Hs in Hi |- *;
      apply singleton_lookup in Hi as [-> Heq]; try discriminate Heq.
    injection Heq as ->. right; left. eexists. split; [reflexivity|].
    rewrite Sleep_Until_in_range by lia. lia.
  - split; [done|].
    destruct Hstate as [Hs|[(w' & Hs & Hw')|[Hs Hd]]]; rewrite Hs in Hi |- *;
      apply singleton_lookup in Hi as [-> Heq]; try discriminate Heq.
    injection Heq as -> ->. right; right. split; [done|lia].
Qed.

Lemma exec_waiting token t0 evs p q :
  (refresh_deadline token - t0 ≤ GoTime.maxDuration)%Z →
  Forall (λ ev, is_refresh ev = false) evs →
  waiting token t0 p → exec evs p = Some q → waiting token t0 q.
Proof.
  intros Hrange Hevs. revert p.
  induction Hevs as [|ev evs Hev Hevs IH]; intros p Hp Hexec; simpl in Hexec.
  - by injection Hexec as <-.
  - destruct (step ev p) as [p'|] eqn:Hs; [|discriminate].
    eapply IH; [|done]. by eapply step_waiting.
Qed.

(** X7. No refresh comes early. From the moment a token is installed and
    its goroutine started, the next call of [refreshCredentials] happens at
    a clock reading no earlier than the token's expiry minus five minutes
    (for a deadline that a Duration can reach from the start). *)
Theorem first_refresh_not_before_deadline token p evs i reply q :
  goroutines p = [GoSpawned token] →
  (refresh_deadline token - now p ≤ GoTime.maxDuration)%Z →
  Forall (λ ev, is_refresh ev = false) evs →
  exec (evs ++ [Refresh i reply]) p = Some q →
  (Expiry token - safety_margin ≤ now q)%Z.
Proof.
  intros Hg Hrange Hevs Hexec.
  destruct (exec_snoc _ _ _ _ Hexec) as (p1 & H1 & Hstep).
  assert (waiting token (now p) p) as Hp by (split; [lia|by left]).
  destruct (exec_waiting _ _ _ _ _ Hrange Hevs Hp H1) as (_ & Hstate).
  destruct (step_cases _ _ _ Hstep) as
    (_ & [(t & [=] & _)|[(j & tk & [=] & _)|
          [(j & dl & w & [=] & _)|(j & reply' & [= <- <-] & Hi & ->)]]]).
  assert (refresh_deadline token = (Expiry token - safety_margin)%Z) as <-.
  { unfold refresh_deadline, safety_margin, GoTime.Add. lia. }
  destruct Hstate as [Hs|[(w & Hs & Hw)|[Hs Hd]]]; rewrite Hs in Hi.
  - by apply singleton_lookup in Hi as [_ ?].
  - by apply singleton_lookup in Hi as [_ ?].
  - exact Hd.
Qed.

Lemma first_refresh_not_before_deadline_witness :
  (Expiry sample_token - safety_margin ≤ now sample_degraded)%Z.
Proof.
  apply (first_refresh_not_before_deadline sample_token sample_start sample_due
           0 (Err "provider unreachable") sample_degraded).
  - reflexivity.
  - vm_compute. discriminate.
  - repeat constructor.
  - reflexivity.
Defined.

(** One turn of the loop on a token that is already inside the margin takes
    no time. *)
Lemma stale_cycle p creds token :
  exited p = None →
  goroutines p = [GoSpawned token] →
  TokenSource_Token (Credentials_TokenSource creds) = Ok token →
  (refresh_deadline token ≤ now p)%Z →
  exec (refresh_cycle creds) p =
    Some (mkProcess
            {| config := config (server p); credential := Some creds;
               router := router (server p) |}
            (now p) [GoSpawned token] (logs p) (listening p) (exited p)).
Proof.
  intros Hex Hg Htok Hstale. unfold refresh_cycle.
  erewrite exec_cons by (apply step_Start; [done|by rewrite Hg]).
  erewrite exec_cons.
  2:{ eapply step_Wake; [done|by rewrite Hg|].
      simpl. unfold GoTime.Sleep, GoTime.Until, GoTime.Sub,
        GoTime.minDuration, GoTime.maxDuration. lia. }
  erewrite exec_cons by (apply step_Refresh; [done|by rewrite Hg]).
  simpl. rewrite Htok. unfold finish_refresh; simpl. by rewrite Hg.
Qed.

(** X8. The loop has no minimum interval. When the provider hands out a
    token that is already within five minutes of its expiry (or past it),
    the goroutine's sleep returns at once; if the provider keeps doing so,
    any number of refreshes run one after the other with the clock standing
    still, each installing the credentials and starting the next
    goroutine. *)
Theorem stale_token_refreshes_without_delay p creds token n :
  exited p = None →
  goroutines p = [GoSpawned token] →
  TokenSource_Token (Credentials_TokenSource creds) = Ok token →
  (Expiry token - safety_margin ≤ now p)%Z →
  ∃ q,
    exec (refresh_cycles n creds) p = Some q ∧
    now q = now p ∧
    goroutines q = [GoSpawned token] ∧
    logs q = logs p ∧
    (0 < n → currentToken q = Some creds).
Proof.
  intros Hex Hg Htok Hstale.
  assert (refresh_deadline token ≤ now p)%Z as Hdl.
  { unfold refresh_deadline, safety_margin, GoTime.Add in *. lia. }
  clear Hstale. revert p Hex Hg Hdl.
  induction n as [|n IH]; intros p Hex Hg Hdl.
  - exists p. split_and!; [done..|lia].
  - pose proof (stale_cycle p creds token Hex Hg Htok Hdl) as Hcycle.
    set (p1 := mkProcess
                 {| config := config (server p); credential := Some creds;
                    router := router (server p) |}
                 (now p) [GoSpawned token] (logs p) (listening p) (exited p)) in Hcycle.
    destruct (IH p1 Hex eq_refl Hdl) as (q & Hq & Hnow & Hgs & Hlogs & Hcur).
    exists q. split_and!; [|done..|].
    + change (refresh_cycles (S n) creds)
        with (refresh_cycle creds ++ refresh_cycles n creds).
      eapply exec_app; [exact Hcycle|exact Hq].
    + intros _. destruct n as [|n]; [by injection Hq as <-|].
      apply Hcur. lia.
Qed.

Lemma stale_token_refreshes_without_delay_witness :
  ∃ q,
    exec (refresh_cycles 3 sample_stale_creds)
      (mkProcess (server sample_start) 3300000000000%Z [GoSpawned sample_stale_token]
         [] (Some ":8080") None) = Some q ∧
    now q = 3300000000000%Z ∧
    goroutines q = [GoSpawned sample_stale_token] ∧
    logs q = [] ∧
    (0 < 3 → currentToken q = Some sample_stale_creds).
Proof.
  apply (stale_token_refreshes_without_delay
           (mkProcess (server sample_start) 3300000000000%Z [GoSpawned sample_stale_token]
              [] (Some ":8080") None)
           sample_stale_creds sample_stale_token 3).
  - reflexivity.
  - reflexivity.
  - reflexivity.
  - vm_compute. discriminate.
Defined.

End Schedule.

Section Installed.

Implicit Types (p q : Process) (ev : Event) (evs : list Event) (s : Server).

(** A call of [refreshCredentials] keeps the credential or installs
    credentials whose token source has just produced a token. *)
Lemma refreshCredentials_credential s (reply : result Credentials) :
  credential (ro_server (refreshCredentials s reply)) = credential s ∨
  ∃ creds token,
    reply = Ok creds ∧
    TokenSource_Token (Credentials_TokenSource creds) = Ok token ∧
    credential (ro_server (refreshCredentials s reply)) = Some creds.
Proof.
  unfold refreshCredentials. destruct reply as [creds|e]; [|by left].
  destruct (TokenSource_Token _) as [token|e] eqn:Htok; [|by left].
  right. by exists creds, token.
Qed.

Lemma step_server ev p q :
  step ev p = Some q →
  server q = server p ∨
  ∃ i reply, ev = Refresh i reply ∧ server q = ro_server (refreshCredentials (server p) reply).
Proof.
  intros Hstep.
  destruct (step_cases _ _ _ Hstep) as
    (_ & [(t & -> & _ & ->)|[(i & tk & -> & _ & ->)|
          [(i & dl & w & -> & _ & _ & ->)|(i & reply & -> & _ & ->)]]]);
    [by left..|].
  right. by exists i, reply.
Qed.

(** X9. The credentials a running process has installed are always ones
    whose token source produced a token when they were obtained: credentials
    for which [Token()] failed are never installed. *)
Theorem installed_credentials_yielded_token p creds :
  reachable p →
  currentToken p = Some creds →
  ∃ token, TokenSource_Token (Credentials_TokenSource creds) = Ok token.
Proof.
  intros (project & t0 & reply & evs & Hrun & Hexec). revert creds.
  eapply (exec_invariant
            (λ p, ∀ creds, currentToken p = Some creds →
                  ∃ token, TokenSource_Token (Credentials_TokenSource creds) = Ok token));
    [| |exact Hexec].
  - clear. intros ev p q IH Hstep creds Hcur. unfold currentToken in *.
    destruct (step_server _ _ _ Hstep) as [Hs|(i & reply & _ & Hs)]; rewrite Hs in Hcur.
    + by apply IH.
    + destruct (refreshCredentials_credential (server p) reply)
        as [Hsame|(creds' & token & _ & Htok & Hnew)].
      * apply IH. by rewrite <- Hsame.
      * rewrite Hnew in Hcur. injection Hcur as <-. by exists token.
  - intros creds Hcur.
    destruct (main_running _ _ _ Hrun) as (creds' & token & _ & Htok & Hmain).
    rewrite Hmain in Hcur. injection Hcur as <-. by exists token.
Qed.

Lemma installed_credentials_yielded_token_witness :
  ∃ token, TokenSource_Token (Credentials_TokenSource sample_creds) = Ok token.
Proof.
  apply (installed_credentials_yielded_token sample_refreshing sample_creds).
  - exists "demo-project", 0%Z, (Ok sample_creds), sample_due. split; reflexivity.
  - reflexivity.
Defined.

Lemma started_reachable project p : started project p → reachable p.
Proof. intros (t0 & reply & evs & H). by exists project, t0, reply, evs. Qed.

Lemma step_config ev p q : step ev p = Some q → config (server q) = config (server p).
Proof.
  intros Hstep.
  destruct (step_server _ _ _ Hstep) as [->|(i & reply & _ & ->)]; [done|].
  by destruct (refreshCredentials_frame (server p) reply) as (-> & _).
Qed.

Lemma started_config project p :
  started project p → config (server p) = mkConfig project "us-central1" "openapi".
Proof.
  intros (t0 & reply & evs & Hrun & Hexec).
  eapply (exec_invariant (λ p, config (server p) = mkConfig project "us-central1" "openapi"));
    [| |exact Hexec].
  - intros ev p1 q IH Hstep. by rewrite (step_config _ _ _ Hstep).
  - by destruct (main_running _ _ _ Hrun) as (creds & token & _ & _ & ->).
Qed.

(** X10. Whatever the refresh loop does, the process keeps what [main] set
    up: the configuration read at start, the four routes in their order
    with the CORS middleware, and the port. *)
Theorem startup_state_is_kept project p :
  started project p →
  config (server p) = mkConfig project "us-central1" "openapi" ∧
  routes (router (server p)) =
    [mkRoute "POST" "/v1/chat/completions" HChatCompletions;
     mkRoute "OPTIONS" "/v1/chat/completions" HOptions;
     mkRoute "GET" "/v1/models" HListModels;
     mkRoute "GET" "/v1/models/:model" HRetrieveModel] ∧
  cors_installed (router (server p)) = true ∧
  listening p = Some ":8080" ∧
  exited p = None.
Proof.
  intros Hstarted.
  destruct (reachable_running _ (started_reachable _ _ Hstarted))
    as (Hex & _ & _ & Hl & Hr).
  split_and!; [by apply started_config|by rewrite Hr..|done|done].
Qed.

Lemma startup_state_is_kept_witness :
  config (server sample_degraded) = mkConfig "demo-project" "us-central1" "openapi" ∧
  routes (router (server sample_degraded)) =
    [mkRoute "POST" "/v1/chat/completions" HChatCompletions;
     mkRoute "OPTIONS" "/v1/chat/completions" HOptions;
     mkRoute "GET" "/v1/models" HListModels;
     mkRoute "GET" "/v1/models/:model" HRetrieveModel] ∧
  cors_installed (router (server sample_degraded)) = true ∧
  listening sample_degraded = Some ":8080" ∧
  exited sample_degraded = None.
Proof.
  apply (startup_state_is_kept "demo-project" sample_degraded).
  exists 0%Z, (Ok sample_creds), (sample_due ++ [Refresh 0 (Err "provider unreachable")]).
  split; reflexivity.
Defined.

End Installed.

Section UpstreamTarget.
Context {F R : Type} {openai : OpenAI F R}.

Implicit Types (p q : Process) (request : ChatCompletionRequest F).

(** X11. Every upstream call of a process started for [project] goes to the
    us-central1 endpoint "openapi" of that project, through a client built
    on the token source of the credentials installed at that moment. *)
Theorem upstream_call_target project p body request :
  started project p →
  BindJSON body = Ok request →
  ∃ cred,
    currentToken p = Some cred ∧
    upstream_calls (ServeHTTP (server p) (mkRequest "POST" "/v1/chat/completions" body)) =
      [({| BaseURL :=
             "https://us-central1-aiplatform.googleapis.com/v1beta1/projects/"
               +:+ project +:+ "/locations/us-central1/endpoints/openapi";
           HTTPClient := Credentials_TokenSource cred |},
        mkChatCompletionRequest "google/gemini-2.0-flash-001" (Fields request))].
Proof.
  intros Hstarted Hbind.
  destruct (ServeHTTP_chat_bound p body request (started_reachable _ _ Hstarted) Hbind)
    as (cred & Hcur & Hc).
  exists cred. split; [done|]. rewrite Hc. simpl.
  unfold client_of, forwarded, upstream_url.
  by rewrite (started_config _ _ Hstarted).
Qed.

(** X12. A request served after a refresh step uses the outcome of that
    step: the credentials the provider has just returned when the refresh
    succeeded, the ones installed before when it failed. *)
Theorem request_after_refresh p q i reply body request :
  reachable p →
  step (Refresh i reply) p = Some q →
  BindJSON body = Ok request →
  ∃ cred cfg req,
    upstream_calls (ServeHTTP (server q) (mkRequest "POST" "/v1/chat/completions" body)) =
      [(cfg, req)] ∧
    HTTPClient cfg = Credentials_TokenSource cred ∧
    match ro_err (refreshCredentials (server p) reply) with
    | None => reply = Ok cred
    | Some _ => currentToken p = Some cred
    end.
Proof.
  intros Hreach Hstep Hbind.
  pose proof (reachable_step _ _ _ Hreach Hstep) as Hq.
  destruct (ServeHTTP_chat_bound q body request Hq Hbind) as (cred & Hcur & Hc).
  exists cred, (client_of (server q) cred), (forwarded request).
  rewrite Hc. split_and!; [done..|].
  destruct (ro_err (refreshCredentials (server p) reply)) as [e|] eqn:Herr.
  - destruct (failed_refresh_step _ _ _ _ _ Hstep Herr) as (_ & Hs & _).
    unfold currentToken in *. by rewrite <- Hs.
  - destruct (successful_refresh_step _ _ _ _ (reachable_running _ Hreach) Hstep Herr)
      as (creds & token & -> & _ & _ & Hnew & _).
    congruence.
Qed.

End UpstreamTarget.

Section UpstreamTargetSamples.

#[local] Existing Instance sample_openai.

Lemma upstream_call_target_witness :
  ∃ cred,
    currentToken sample_start = Some cred ∧
    upstream_calls (ServeHTTP (server sample_start)
                      (mkRequest "POST" "/v1/chat/completions" "model gpt-4")) =
      [({| BaseURL :=
             "https://us-central1-aiplatform.googleapis.com/v1beta1/projects/"
               +:+ "demo-project" +:+ "/locations/us-central1/endpoints/openapi";
           HTTPClient := Credentials_TokenSource cred |},
        mkChatCompletionRequest "google/gemini-2.0-flash-001"
          (Fields (mkChatCompletionRequest "gpt-4" 1)))].
Proof.
  apply (upstream_call_target (openai := sample_openai) "demo-project" sample_start
           "model gpt-4" (mkChatCompletionRequest "gpt-4" 1)).
  - exists 0%Z, (Ok sample_creds), []. split; reflexivity.
  - reflexivity.
Defined.

Lemma request_after_refresh_witness :
  ∃ q cred cfg req,
    step (Refresh 0 (Ok sample_renewed_creds)) sample_refreshing = Some q ∧
    upstream_calls (ServeHTTP (server q)
                      (mkRequest "POST" "/v1/chat/completions" "model gpt-4")) =
      [(cfg, req)] ∧
    HTTPClient cfg = Credentials_TokenSource cred ∧
    cred = sample_renewed_creds.
Proof.
  destruct (request_after_refresh (openai := sample_openai)
              sample_refreshing
              (finish_refresh sample_refreshing 0
                 (refreshCredentials (server sample_refreshing) (Ok sample_renewed_creds)))
              0 (Ok sample_renewed_creds)
              "model gpt-4" (mkChatCompletionRequest "gpt-4" 1))
    as (cred & cfg & req & Hcalls & Hclient & Hcred).
  - exists "demo-project", 0%Z, (Ok sample_creds), sample_due. split; reflexivity.
  - reflexivity.
  - reflexivity.
  - eexists _, cred, cfg, req. split; [reflexivity|]. split; [exact Hcalls|].
    split; [exact Hclient|]. simpl in Hcred. by injection Hcred as <-.
Defined.

End UpstreamTargetSamples.

(** ** The routing table *)

Section Routing.

Implicit Types (path m id : string) (segs : list string).

Lemma split_path_nonempty path : split_path path ≠ [].
Proof.
  destruct path as [|c path]; simpl; [done|].
  destruct (Ascii.eqb c "/"); [done|]. by destruct (split_path path).
Qed.

Lemma join_path_cons_char (c : ascii) (seg : string) segs :
  join_path (String c seg :: segs) = String c (join_path (seg :: segs)).
Proof. by destruct segs. Qed.

(** Splitting a path at its slashes loses nothing. *)
Lemma join_split_path path : join_path (split_path path) = path.
Proof.
  induction path as [|c path IH]; simpl; [done|].
  destruct (Ascii.eqb c "/") eqn:Hc.
  - apply Ascii.eqb_eq in Hc as ->.
    destruct (split_path path) as [|seg rest] eqn:Hs; [by apply split_path_nonempty in Hs|].
    change (join_path ("" :: seg :: rest)) with ("/" +:+ join_path (seg :: rest)).
    by rewrite IH.
  - destruct (split_path path) as [|seg rest] eqn:Hs; [by apply split_path_nonempty in Hs|].
    by rewrite join_path_cons_char, IH.
Qed.

Lemma split_path_inj path path' : split_path path = split_path path' → path = path'.
Proof.
  intros Heq. by rewrite <- (join_split_path path), Heq, join_split_path.
Qed.

Lemma split_path_segments path :
  Forall (λ seg, has_slash seg = false) (split_path path).
Proof.
  induction path as [|c path IH]; simpl; [by repeat constructor|].
  destruct (Ascii.eqb c "/") eqn:Hc; [by constructor|].
  destruct (split_path path) as [|seg rest];
    [constructor; [simpl; by rewrite Hc|constructor]|].
  inversion IH as [|?? Hseg Hrest]; subst. constructor; [|done].
  simpl. by rewrite Hc, Hseg.
Qed.

(** What each of the registered patterns matches. *)
Lemma match_chat segs params :
  match_segments [""; "v1"; "chat"; "completions"] segs [] = Some params →
  segs = [""; "v1"; "chat"; "completions"] ∧ params = [].
Proof. match_steps. intros [= <-]. by subst. Qed.

Lemma match_models segs params :
  match_segments [""; "v1"; "models"] segs [] = Some params →
  segs = [""; "v1"; "models"] ∧ params = [].
Proof. match_steps. intros [= <-]. by subst. Qed.

Lemma match_model segs params :
  match_segments [""; "v1"; "models"; ":model"] segs [] = Some params →
  ∃ id, segs = [""; "v1"; "models"; id] ∧ id ≠ "" ∧ params = [("model", id)].
Proof. match_steps. intros [= <-]. subst. by eexists. Qed.

Lemma lookup_model_route (cfg : Config) id :
  has_slash id = false → id ≠ "" →
  lookup_route (router (setupRoutes (NewServer cfg))) "GET" ("/v1/models/" +:+ id)
    = Found HRetrieveModel [("model", id)].
Proof.
  intros Hslash Hne.
  unfold lookup_route, setupRoutes, add_route, NewServer, gin_Default.
  cbn [router routes app find_route match_route route_method route_pattern
       route_handler String.eqb Ascii.eqb Bool.eqb].
  change (split_path ("/v1/models/" +:+ id))
    with ("" :: "v1" :: "models" :: split_path id).
  rewrite (split_path_no_slash _ Hslash).
  cbn [match_segments String.eqb Ascii.eqb Bool.eqb app].
  destruct id as [|a id]; [done|]. reflexivity.
Qed.

(** The requests that reach a handler. *)
Lemma find_route_cases (cfg : Config) m path h params :
  find_route m path (routes (router (setupRoutes (NewServer cfg)))) = Some (h, params) →
  (m = "POST" ∧ path = "/v1/chat/completions" ∧ h = HChatCompletions ∧ params = []) ∨
  (m = "OPTIONS" ∧ path = "/v1/chat/completions" ∧ h = HOptions ∧ params = []) ∨
  (m = "GET" ∧ path = "/v1/models" ∧ h = HListModels ∧ params = []) ∨
  (m = "GET" ∧ ∃ id, path = "/v1/models/" +:+ id ∧ id ≠ "" ∧ has_slash id = false ∧
                     h = HRetrieveModel ∧ params = [("model", id)]).
Proof.
  unfold setupRoutes, add_route, NewServer, gin_Default.
  cbn [router routes app find_route]. unfold match_route.
  cbn [route_method route_pattern route_handler].
  change (split_path "/v1/chat/completions") with [""; "v1"; "chat"; "completions"].
  change (split_path "/v1/models") with [""; "v1"; "models"].
  change (split_path "/v1/models/:model") with [""; "v1"; "models"; ":model"].
  case (String.eqb_spec "POST" m) as [<-|_].
  { destruct (match_segments _ (split_path path) []) as [ps|] eqn:Hm.
    - intros [= <- <-]. apply match_chat in Hm as [Hs ->]. left.
      split_and!; try done. by apply split_path_inj.
    - cbn. by intros [=]. }
  case (String.eqb_spec "OPTIONS" m) as [<-|_].
  { destruct (match_segments _ (split_path path) []) as [ps|] eqn:Hm.
    - intros [= <- <-]. apply match_chat in Hm as [Hs ->]. right; left.
      split_and!; try done. by apply split_path_inj.
    - cbn. by intros [=]. }
  case (String.eqb_spec "GET" m) as [<-|_]; [|by intros [=]].
  destruct (match_segments [""; "v1"; "models"] (split_path path) []) as [ps|] eqn:Hm.
  - intros [= <- <-]. apply match_models in Hm as [Hs ->]. right; right; left.
    split_and!; try done. by apply split_path_inj.
  - destruct (match_segments [""; "v1"; "models"; ":model"] (split_path path) [])
      as [ps|] eqn:Hm'; [|by intros [=]].
    intros [= <- <-]. apply match_model in Hm' as (id & Hs & Hne & ->).
    right; right; right. split; [done|]. exists id.
    pose proof (split_path_segments path) as Hsegs. rewrite Hs in Hsegs.
    split_and!; try done.
    + rewrite <- (join_split_path path), Hs. reflexivity.
    + apply Forall_cons_1 in Hsegs as [_ Hsegs].
      apply Forall_cons_1 in Hsegs as [_ Hsegs].
      apply Forall_cons_1 in Hsegs as [_ Hsegs].
      by apply Forall_cons_1 in Hsegs as [? _].
Qed.

End Routing.

Section RoutedRequests.
Context {F R : Type} {openai : OpenAI F R}.

Implicit Types (p : Process) (path m id : string) (req : Request).

Lemma lookup_found_cases (cfg : Config) m path h params :
  lookup_route (router (setupRoutes (NewServer cfg))) m path = Found h params →
  (m = "POST" ∧ path = "/v1/chat/completions" ∧ h = HChatCompletions ∧ params = []) ∨
  (m = "OPTIONS" ∧ path = "/v1/chat/completions" ∧ h = HOptions ∧ params = []) ∨
  (m = "GET" ∧ path = "/v1/models" ∧ h = HListModels ∧ params = []) ∨
  (m = "GET" ∧ ∃ id, path = "/v1/models/" +:+ id ∧ id ≠ "" ∧ has_slash id = false ∧
                     h = HRetrieveModel ∧ params = [("model", id)]).
Proof.
  unfold lookup_route.
  destruct (find_route m path _) as [[h' ps]|] eqn:Hfind.
  - intros [= <- <-]. by apply (find_route_cases cfg).
  - destruct (String.eqb path "/"); [by intros [=]|].
    clear Hfind. destruct (find_route m _ _); by intros [=].
Qed.

(** X13. The routing table, read both ways: a request reaches a handler
    exactly when it is POST or OPTIONS on /v1/chat/completions, GET on
    /v1/models, or GET on /v1/models/ followed by one non-empty segment
    without a slash, which becomes the parameter "model". *)
Theorem routed_requests (cfg : Config) m path h params :
  lookup_route (router (setupRoutes (NewServer cfg))) m path = Found h params ↔
  (m = "POST" ∧ path = "/v1/chat/completions" ∧ h = HChatCompletions ∧ params = []) ∨
  (m = "OPTIONS" ∧ path = "/v1/chat/completions" ∧ h = HOptions ∧ params = []) ∨
  (m = "GET" ∧ path = "/v1/models" ∧ h = HListModels ∧ params = []) ∨
  (m = "GET" ∧ ∃ id, path = "/v1/models/" +:+ id ∧ id ≠ "" ∧ has_slash id = false ∧
                     h = HRetrieveModel ∧ params = [("model", id)]).
Proof.
  split; [apply lookup_found_cases|].
  intros [(-> & -> & -> & ->)|[(-> & -> & -> & ->)|[(-> & -> & -> & ->)|
          (-> & id & -> & Hne & Hslash & -> & ->)]]]; [reflexivity..|].
  by apply lookup_model_route.
Qed.

Lemma running_lookup p m path :
  running p →
  lookup_route (router (server p)) m path =
    lookup_route (router (setupRoutes (NewServer (config (server p))))) m path.
Proof. intros (_ & _ & _ & _ & Hr). by rewrite Hr. Qed.

Lemma chat_or_other (h : HandlerName) : h = HChatCompletions ∨ h ≠ HChatCompletions.
Proof. destruct h; [by left|by right..]. Qed.

(** The handlers other than the chat handler never call the upstream. *)
Lemma other_handlers_stay_local h (s : Server) params req :
  h ≠ HChatCompletions →
  upstream_calls (run_handler (F := F) h s params req new_context) = [] ∧
  panicked (run_handler (F := F) h s params req new_context) = false ∧
  length (written (run_handler (F := F) h s params req new_context)) = 1.
Proof.
  destruct h; [done|..]; intros _; simpl.
  - done.
  - done.
  - unfold handleRetrieveModel. by destruct (AvailableModels !! _).
Qed.

(** X14. A running process calls the upstream for nothing but a POST on
    /v1/chat/completions whose body binds: no other method, path or handler
    leads to an upstream call. *)
Theorem only_chat_calls_upstream p req :
  reachable p →
  upstream_calls (ServeHTTP (server p) req) ≠ [] →
  req_method req = "POST" ∧
  req_path req = "/v1/chat/completions" ∧
  ∃ request, BindJSON (req_body req) = Ok request.
Proof.
  intros Hreach Hcalls. pose proof (reachable_running _ Hreach) as Hrun.
  unfold ServeHTTP in Hcalls. rewrite (running_lookup _ _ _ Hrun) in Hcalls.
  destruct (lookup_route _ _ _) as [h params| |] eqn:Hlook; [|done..].
  destruct (chat_or_other h) as [->|Hne].
  - apply lookup_found_cases in Hlook
      as [(Hm & Hp & _)|[(_ & _ & [=] & _)|[(_ & _ & [=] & _)|(_ & id & _ & _ & _ & [=] & _)]]].
    split_and!; [done..|].
    simpl in Hcalls. unfold handleChatCompletions in Hcalls.
    destruct (BindJSON (req_body req)) as [request|e]; [by exists request|done].
  - by destruct (other_handlers_stay_local h (server p) params req Hne) as (Hnil & _).
Qed.

(** X15. A running process answers every request with exactly one response,
    and no handler panics: the nil credential that would make the chat
    handler panic is never there once [main] has passed its first
    refresh. *)
Theorem every_request_gets_one_response p req :
  reachable p →
  length (written (ServeHTTP (server p) req)) = 1 ∧
  panicked (ServeHTTP (server p) req) = false.
Proof.
  intros Hreach. destruct (reachable_running _ Hreach) as (_ & [cred Hcred] & _).
  unfold ServeHTTP.
  destruct (lookup_route _ _ _) as [h params| |]; [|done..].
  destruct (chat_or_other h) as [->|Hne].
  - simpl. unfold handleChatCompletions. rewrite Hcred.
    destruct (BindJSON (req_body req)) as [request|e]; [|done].
    by destruct (CreateChatCompletion _ _).
  - by destruct (other_handlers_stay_local h (server p) params req Hne) as (_ & ? & ?).
Qed.

(** X16. Of all GET requests a running process answers only /v1/models
    with success: every other GET gets 404 or, for a path that differs from
    a route by a trailing slash, the redirect 301. No path retrieves a model
    by its identifier. *)
Theorem only_model_list_succeeds p path body r :
  reachable p →
  path ≠ "/v1/models" →
  r ∈ written (ServeHTTP (F := F) (server p) (mkRequest "GET" path body)) →
  status r = 404%Z ∨ status r = 301%Z.
Proof.
  intros Hreach Hpath. pose proof (reachable_running _ Hreach) as Hrun.
  unfold ServeHTTP. rewrite (running_lookup _ _ _ Hrun). simpl req_method; simpl req_path.
  destruct (lookup_route _ _ _) as [h params| |] eqn:Hlook.
  - apply lookup_found_cases in Hlook
      as [([=] & _)|[([=] & _)|[(_ & Hp & _)|(_ & id & -> & Hne & Hslash & -> & ->)]]];
      [done|].
    simpl. unfold handleRetrieveModel. cbn [Param String.eqb Ascii.eqb Bool.eqb].
    unfold AvailableModels, gemini.
    rewrite lookup_singleton_ne by (symmetry; by apply has_slash_gemini).
    simpl. intros ->%list_elem_of_singleton. by left.
  - simpl. intros ->%list_elem_of_singleton. by right.
  - simpl. intros ->%list_elem_of_singleton. by left.
Qed.

End RoutedRequests.

Section RoutedRequestsSamples.

#[local] Existing Instance sample_openai.

Lemma only_chat_calls_upstream_witness :
  req_method (mkRequest "POST" "/v1/chat/completions" "model gpt-4") = "POST" ∧
  req_path (mkRequest "POST" "/v1/chat/completions" "model gpt-4") = "/v1/chat/completions" ∧
  ∃ request, BindJSON (req_body (mkRequest "POST" "/v1/chat/completions" "model gpt-4"))
             = Ok request.
Proof.
  apply (only_chat_calls_upstream (openai := sample_openai) sample_start
           (mkRequest "POST" "/v1/chat/completions" "model gpt-4")).
  - exists "demo-project", 0%Z, (Ok sample_creds), []. split; reflexivity.
  - discriminate.
Defined.

Lemma every_request_gets_one_response_witness :
  length (written (ServeHTTP (server sample_degraded)
                     (mkRequest "DELETE" "/v1/models/gpt-4" ""))) = 1 ∧
  panicked (ServeHTTP (server sample_degraded)
              (mkRequest "DELETE" "/v1/models/gpt-4" "")) = false.
Proof.
  apply (every_request_gets_one_response (openai := sample_openai) sample_degraded
           (mkRequest "DELETE" "/v1/models/gpt-4" "")).
  exists "demo-project", 0%Z, (Ok sample_creds),
    (sample_due ++ [Refresh 0 (Err "provider unreachable")]).
  split; reflexivity.
Defined.

Lemma only_model_list_succeeds_witness :
  status (mkResponse 404 (BodyText "404 page not found")) = 404%Z ∨
  status (mkResponse 404 (BodyText "404 page not found")) = 301%Z.
Proof.
  apply (only_model_list_succeeds (F := nat) sample_start
           "/v1/models/google/gemini-2.0-flash-001" "").
  - exists "demo-project", 0%Z, (Ok sample_creds), []. split; reflexivity.
  - discriminate.
  - apply list_elem_of_singleton. reflexivity.
Defined.

End RoutedRequestsSamples.

(** ** tokenTransport *)

Section TokenTransport.
Import Transport.
Context {Resp : Type}.
Variable DefaultTransport : HTTPRequest → result Resp.

Implicit Types (t : tokenTransport) (req : HTTPRequest) (tok : Token).

(** X17. With a token, [RoundTrip] sends exactly one request, the caller's
    own, and returns what the default transport answers to it. On that
    request the Authorization header holds the single value "Bearer "
    followed by the access token, whatever values it held before; every
    other header, the method, the URL and the body are as the caller set
    them. *)
Theorem RoundTrip_sets_bearer t req tok :
  token t = Ok tok →
  let o := RoundTrip DefaultTransport t req in
  sent o = [request_after o] ∧
  returned o = DefaultTransport (request_after o) ∧
  Header (request_after o) !! "Authorization" = Some ["Bearer " +:+ AccessToken tok] ∧
  Header_Get "Authorization" (Header (request_after o)) = "Bearer " +:+ AccessToken tok ∧
  (∀ key, key ≠ "Authorization" →
     Header (request_after o) !! key = Header req !! key) ∧
  Method (request_after o) = Method req ∧
  URL (request_after o) = URL req ∧
  RequestBody (request_after o) = RequestBody req.
Proof.
  intros Htok o. unfold o, RoundTrip. rewrite Htok. simpl.
  unfold Header_Get, Header_Set. rewrite lookup_insert_eq.
  split_and!; try done.
  intros key Hkey. by rewrite lookup_insert_ne.
Qed.

(** Without a token nothing is sent: [RoundTrip] returns the token
    function's error, the default transport is not called and the request
    is left as it was. *)
Theorem RoundTrip_token_error t req err :
  token t = Err err →
  sent (RoundTrip DefaultTransport t req) = [] ∧
  returned (RoundTrip DefaultTransport t req) = Err err ∧
  request_after (RoundTrip DefaultTransport t req) = req.
Proof. intros Htok. unfold RoundTrip. by rewrite Htok. Qed.

(** X18. The header does not pile up. A request that goes through
    [RoundTrip] a second time, be it with another token, ends as if it had
    gone through the second time only: the later token replaces the
    earlier one. *)
Theorem RoundTrip_twice t1 t2 req tok1 tok2 :
  token t1 = Ok tok1 →
  token t2 = Ok tok2 →
  request_after
    (RoundTrip DefaultTransport t2 (request_after (RoundTrip DefaultTransport t1 req))) =
  request_after (RoundTrip DefaultTransport t2 req).
Proof.
  intros H1 H2. unfold RoundTrip. rewrite H1, H2. simpl.
  unfold Header_Set. by rewrite insert_insert_eq.
Qed.

End TokenTransport.

Section TokenTransportSamples.
Import Transport.

Lemma RoundTrip_sets_bearer_witness :
  let o := RoundTrip sample_echo_transport (mkTokenTransport (Ok sample_token))
             sample_http_request in
  sent o = [request_after o] ∧
  returned o = sample_echo_transport (request_after o) ∧
  Header (request_after o) !! "Authorization" =
    Some ["Bearer " +:+ AccessToken sample_token] ∧
  Header_Get "Authorization" (Header (request_after o)) =
    "Bearer " +:+ AccessToken sample_token ∧
  (∀ key, key ≠ "Authorization" →
     Header (request_after o) !! key = Header sample_http_request !! key) ∧
  Method (request_after o) = Method sample_http_request ∧
  URL (request_after o) = URL sample_http_request ∧
  RequestBody (request_after o) = RequestBody sample_http_request.
Proof.
  apply (RoundTrip_sets_bearer sample_echo_transport
           (mkTokenTransport (Ok sample_token)) sample_http_request sample_token).
  reflexivity.
Defined.

Lemma RoundTrip_token_error_witness :
  sent (RoundTrip sample_echo_transport (mkTokenTransport (Err "token expired"))
          sample_http_request) = [] ∧
  returned (RoundTrip sample_echo_transport (mkTokenTransport (Err "token expired"))
              sample_http_request) = Err "token expired" ∧
  request_after (RoundTrip sample_echo_transport (mkTokenTransport (Err "token expired"))
                   sample_http_request) = sample_http_request.
Proof.
  apply (RoundTrip_token_error sample_echo_transport
           (mkTokenTransport (Err "token expired")) sample_http_request "token expired").
  reflexivity.
Defined.

Lemma RoundTrip_twice_witness :
  request_after
    (RoundTrip sample_echo_transport (mkTokenTransport (Ok sample_renewed_token))
       (request_after
          (RoundTrip sample_echo_transport (mkTokenTransport (Ok sample_token))
             sample_http_request))) =
  request_after
    (RoundTrip sample_echo_transport (mkTokenTransport (Ok sample_renewed_token))
       sample_http_request).
Proof.
  apply (RoundTrip_twice sample_echo_transport
           (mkTokenTransport (Ok sample_token))
           (mkTokenTransport (Ok sample_renewed_token))
           sample_http_request sample_token sample_renewed_token).
  - reflexivity.
  - reflexivity.
Defined.

(** The sample transport sees the new value, not the two old ones. *)
Example sample_round_trip :
  returned (RoundTrip sample_echo_transport (mkTokenTransport (Ok sample_token))
              sample_http_request) = Ok "Bearer ya29.first".
Proof.
  unfold RoundTrip, sample_echo_transport, Header_Get, Header_Set; simpl.
  by rewrite lookup_insert_eq.
Qed.

End TokenTransportSamples.

(** ** Start-up and the moments the credential changes *)

Section StartupOutcomes.

Implicit Types (p q : Process) (ev : Event).


(** X20. The installed credentials change at one kind of event only: a
    refresh to which the provider answered with credentials whose token
    source produced a token. Clock ticks, the goroutine going to sleep or
    waking, and failed refreshes leave them alone. *)
Theorem credential_changes_only_on_refresh ev p q :
  step ev p = Some q →
  currentToken q ≠ currentToken p →
  ∃ i creds token,
    ev = Refresh i (Ok creds) ∧
    TokenSource_Token (Credentials_TokenSource creds) = Ok token ∧
    currentToken q = Some creds.
Proof.
  intros Hstep Hchange. unfold currentToken in *.
  destruct (step_server _ _ _ Hstep) as [Hs|(i & reply & -> & Hs)];
    [by rewrite Hs in Hchange|].
  rewrite Hs in Hchange |- *.
  destruct (refreshCredentials_credential (server p) reply)
    as [Hsame|(creds & token & -> & Htok & Hnew)]; [done|].
  by exists i, creds, token.
Qed.

Lemma credential_changes_only_on_refresh_witness :
  ∃ i creds token,
    Refresh 0 (Ok sample_renewed_creds) = Refresh i (Ok creds) ∧
    TokenSource_Token (Credentials_TokenSource creds) = Ok token ∧
    currentToken (finish_refresh sample_refreshing 0
                    (refreshCredentials (server sample_refreshing)
                       (Ok sample_renewed_creds))) = Some creds.
Proof.
  apply (credential_changes_only_on_refresh (Refresh 0 (Ok sample_renewed_creds))
           sample_refreshing).
  - reflexivity.
  - discriminate.
Defined.

End StartupOutcomes.
